(** * caches: LRU and TTL caches (package cache, package ttl)

    A shallow embedding of the Go sources
      - src/cache/lru.go      (LRU cache over a gods doubly linked list, and the
                               first TTL cache of package cache),
      - src/unnamed/part_000  (LRU cache over a slice),
      - src/ttl/ttl.go        (TTL cache of package ttl),
    followed by the properties of the caches.

    The caches are embedded twice.  The first part has them on the key
    types whose values are all equal to themselves (strings, integers, ...):
    there a Go map is a finite map.  The second part has them on every
    comparable key type, float64 with its NaN included; on keys equal to
    themselves the two agree (lru_any_exec_sim, slice_any_exec_sim).

    Every method runs in one goroutine.  The locks of package sync are part of
    the state, because the methods lock and unlock them: a method that
    releases a lock it does not hold ends in the runtime's fatal error, a
    method that waits for a lock nobody will release never returns. *)

From Stdlib Require Import ZArith Lia.
From stdpp Require Import base option numbers list sorting gmap strings.

Local Open Scope Z_scope.

(** ** The Go runtime, as one goroutine sees it *)

Module goruntime.

(** How a call ends: it returns [a] in state [s]; the process dies with
    a panic or a fatal error (state at that point); or the goroutine waits
    forever. *)
Inductive result (St A : Type) : Type :=
| Ok (a : A) (s : St)
| Fatal (msg : string) (s : St)
| Blocked (s : St).
Arguments Ok {St A} a s.
Arguments Fatal {St A} msg s.
Arguments Blocked {St A} s.

Definition M (St A : Type) : Type := St → result St A.

Definition ret {St A} (a : A) : M St A := λ s, Ok a s.

Definition bind {St A B} (m : M St A) (f : A → M St B) : M St B :=
  λ s, match m s with
       | Ok a s' => f a s'
       | Fatal msg s' => Fatal msg s'
       | Blocked s' => Blocked s'
       end.

Definition get {St} : M St St := λ s, Ok s s.
Definition modify {St} (f : St → St) : M St unit := λ s, Ok tt (f s).
Definition panic {St A} (msg : string) : M St A := λ s, Fatal msg s.

(** [defer d; body]: the body fixes the values to return, then the deferred
    call runs, then the function returns those values. *)
Definition defer {St A} (d : M St unit) (body : M St A) : M St A :=
  bind body (λ r, bind d (λ _, ret r)).

Definition returned {St A} (r : result St A) : option A :=
  match r with Ok a _ => Some a | _ => None end.

Definition final {St A} (r : result St A) : St :=
  match r with Ok _ s | Fatal _ s | Blocked s => s end.

(** Goroutines started by [go func() { ... }()].  A goroutine of this
    repository runs one loop around a ticker: it is about to create its
    ticker, or it waits in the select of the loop, or it has left the loop
    and its deferred function has not run yet. *)
Inductive phase : Type := Starting | Ticking | Stopping.

Record goroutine : Type := {
  ctx : nat;          (* the context.Context it was given *)
  every : Z;          (* the interval of its ticker *)
  at_phase : phase
}.

(** A process: the cache, the goroutines started and not yet returned, and
    the contexts that were cancelled. *)
Record process (C : Type) : Type := {
  cache : C;
  routines : list goroutine;
  cancelled : gset nat
}.
Arguments cache {C} p.
Arguments routines {C} p.
Arguments cancelled {C} p.

Definition set_cache {C} (c : C) (p : process C) : process C :=
  {| cache := c; routines := routines p; cancelled := cancelled p |}.
Definition set_routines {C} (f : list goroutine → list goroutine) (p : process C) : process C :=
  {| cache := cache p; routines := f (routines p); cancelled := cancelled p |}.
Definition set_cancelled {C} (f : gset nat → gset nat) (p : process C) : process C :=
  {| cache := cache p; routines := routines p; cancelled := f (cancelled p) |}.

(** A method of the cache, called in a process. *)
Definition on_cache {C A} (m : M C A) : M (process C) A :=
  λ p, match m (cache p) with
       | Ok a c => Ok a (set_cache c p)
       | Fatal msg c => Fatal msg (set_cache c p)
       | Blocked c => Blocked (set_cache c p)
       end.

(** go func() { ... }() *)
Definition go {C} (g : goroutine) : M (process C) unit :=
  modify (set_routines (λ rs, rs ++ [g])).

End goruntime.

Export goruntime.

#[global] Instance M_ret {St} : MRet (M St) := λ A a, ret a.
#[global] Instance M_bind {St} : MBind (M St) := λ A B f m, bind m f.

(** ** Package sync *)

Module sync.

(** What a lock operation does to the lock. *)
Inductive attempt (L : Type) : Type :=
| Acquired (l : L)
| Wait
| Throw (msg : string).
Arguments Acquired {L} l.
Arguments Wait {L}.
Arguments Throw {L} msg.

(** sync.Mutex: held or free. *)
Definition Mutex : Type := bool.

Definition Mutex_Lock (m : Mutex) : attempt Mutex :=
  if m then Wait else Acquired true.

Definition Mutex_Unlock (m : Mutex) : attempt Mutex :=
  if m then Acquired false else Throw "fatal error: sync: unlock of unlocked mutex".

(** sync.RWMutex: the number of read locks held, and whether the write
    lock is held. *)
Record RWMutex : Type := { readers : nat; writer : bool }.

Definition RWMutex_zero : RWMutex := {| readers := 0; writer := false |}.

Definition RLock (m : RWMutex) : attempt RWMutex :=
  if writer m then Wait
  else Acquired {| readers := S (readers m); writer := false |}.

Definition RUnlock (m : RWMutex) : attempt RWMutex :=
  match readers m with
  | O => Throw "fatal error: sync: RUnlock of unlocked RWMutex"
  | S n => Acquired {| readers := n; writer := writer m |}
  end.

Definition Lock (m : RWMutex) : attempt RWMutex :=
  if writer m then Wait
  else match readers m with
       | O => Acquired {| readers := 0; writer := true |}
       | S _ => Wait
       end.

Definition Unlock (m : RWMutex) : attempt RWMutex :=
  if writer m then Acquired {| readers := readers m; writer := false |}
  else Throw "fatal error: sync: Unlock of unlocked RWMutex".

(** A lock operation on the lock stored in a field of the state. *)
Definition on_lock {St L} (proj : St → L) (upd : L → St → St)
    (op : L → attempt L) : M St unit :=
  λ s, match op (proj s) with
       | Acquired l => Ok tt (upd l s)
       | Wait => Blocked s
       | Throw msg => Fatal msg s
       end.

End sync.

(** ** github.com/emirpasic/gods/lists/doublylinkedlist

  The list holds its values in order, first to last.  Indices are Go ints. *)

Module dll.
Section dll.
Context {A : Type} `{EqDecision A}.

Definition New : list A := [].

(** Add appends a value at the end of the list. *)
Definition Add (l : list A) (v : A) : list A := l ++ [v].

Definition Size (l : list A) : Z := Z.of_nat (length l).

Definition withinRange (l : list A) (index : Z) : bool :=
  (0 <=? index) && (index <? Size l).

(** Get returns the element at index, and false when index is out of
    bounds. *)
Definition Get (l : list A) (index : Z) : option A :=
  if withinRange l index then l !! Z.to_nat index else None.

(** Remove removes the element at index; out of bounds it does nothing. *)
Definition Remove (l : list A) (index : Z) : list A :=
  if withinRange l index then delete (Z.to_nat index) l else l.

(** IndexOf walks the values from the first one and compares each with
    [v], stopping at the first that is equal; -1 when there is none.  The
    second component counts the comparisons made. *)
Fixpoint IndexOf_scan (index : Z) (v : A) (l : list A) : Z * nat :=
  match l with
  | [] => (-1, 0%nat)
  | x :: l' =>
      if decide (x = v) then (index, 1%nat)
      else let '(r, n) := IndexOf_scan (index + 1) v l' in (r, S n)
  end.

Definition IndexOf (l : list A) (v : A) : Z := fst (IndexOf_scan 0 v l).

Definition IndexOf_comparisons (l : list A) (v : A) : nat :=
  snd (IndexOf_scan 0 v l).

End dll.
End dll.


(** ** Package slices *)

Module slices.
Section slices.
Context {A : Type}.

(** DeleteFunc removes the elements for which [del] returns true.  It calls
    [del] once on every element (IndexFunc up to the first hit, the copying
    loop after it); the second component counts the calls. *)
Fixpoint DeleteFunc_scan (del : A → bool) (s : list A) : list A * nat :=
  match s with
  | [] => ([], 0%nat)
  | x :: s' =>
      let '(r, n) := DeleteFunc_scan del s' in
      (if del x then r else x :: r, S n)
  end.

Definition DeleteFunc (s : list A) (del : A → bool) : list A :=
  fst (DeleteFunc_scan del s).

Definition DeleteFunc_calls (s : list A) (del : A → bool) : nat :=
  snd (DeleteFunc_scan del s).

End slices.
End slices.

Arguments slices.DeleteFunc {A} s del : simpl never.

(** ** Package time

    A Time is its reading of the monotonic clock and a Duration an int64,
    both in nanoseconds.  Sub saturates at the ends of the Duration range. *)

Module time.

Definition Time : Type := Z.
Definition Duration : Type := Z.

Definition Millisecond : Duration := 1000000.
Definition Second : Duration := 1000000000.

Definition minDuration : Duration := - 2 ^ 63.
Definition maxDuration : Duration := 2 ^ 63 - 1.

Definition Sub (t u : Time) : Duration :=
  if decide (t - u < minDuration) then minDuration
  else if decide (maxDuration < t - u) then maxDuration
  else t - u.

(** time.Since(t) is time.Now().Sub(t); [now] is the reading of the clock. *)
Definition Since (now t : Time) : Duration := Sub now t.

End time.

(** ** Calls made by a client of an LRU cache *)

Inductive op (Key Val : Type) : Type :=
| OpGet (k : Key)
| OpPut (k : Key) (v : Val).
Arguments OpGet {Key Val} k.
Arguments OpPut {Key Val} k v.

Definition op_key {Key Val} (o : op Key Val) : Key :=
  match o with OpGet k => k | OpPut k _ => k end.

(** [age k ops]: how many calls of [ops] (first call first) come after the
    last one that names [k]; None when no call names [k]. *)
Definition age {Key Val} `{EqDecision Key} (k : Key) (ops : list (op Key Val)) : option nat :=
  fst <$> list_find (λ o, op_key o = k) (reverse ops).

(** [a] was touched less recently than [b]. *)
Definition older {Key Val} `{EqDecision Key} (ops : list (op Key Val)) (a b : Key) : Prop :=
  ∃ x y, age a ops = Some x ∧ age b ops = Some y ∧ (y < x)%nat.

(** ** src/cache/lru.go: the LRU cache over a doubly linked list

    The keys are values of a type on which Go's == is the equality of values
    (a key is found in the map under which it was stored).  LRU_any has the
    cache on every comparable key type. *)

Module LRU.
Section lru.
Context {Key : Type} `{Countable Key} {Val : Type} (zero : Val).

Record lruCache : Type := {
  capacity : Z;
  store : gmap Key Val;
  order : list Key;
  mu : sync.Mutex
}.

Definition set_store (f : gmap Key Val → gmap Key Val) (c : lruCache) : lruCache :=
  {| capacity := capacity c; store := f (store c); order := order c; mu := mu c |}.
Definition set_order (f : list Key → list Key) (c : lruCache) : lruCache :=
  {| capacity := capacity c; store := store c; order := f (order c); mu := mu c |}.
Definition set_mu (m : sync.Mutex) (c : lruCache) : lruCache :=
  {| capacity := capacity c; store := store c; order := order c; mu := m |}.

Definition mu_Lock : M lruCache unit := sync.on_lock mu set_mu sync.Mutex_Lock.
Definition mu_Unlock : M lruCache unit := sync.on_lock mu set_mu sync.Mutex_Unlock.

(** NewLRU returns the pair (cache, error) of the Go function. *)
Definition NewLRU (cap : Z) : option lruCache * option string :=
  if decide (cap <= 0) then (None, Some "capacity must be greater than zero")
  else (Some {| capacity := cap; store := ∅; order := dll.New; mu := false |}, None).

(** c.order.Remove(c.order.IndexOf(k)); c.order.Add(k) *)
Definition recentify (k : Key) : M lruCache unit :=
  modify (set_order (λ o, dll.Remove o (dll.IndexOf o k))) ;;
  modify (set_order (λ o, dll.Add o k)).

(** t, _ := c.order.Get(0); c.order.Remove(0); delete(c.store, t.(Key)).
    On an empty list t is nil and the type assertion panics. *)
Definition evict : M lruCache unit :=
  c ← get;
  let t := dll.Get (order c) 0 in
  modify (set_order (λ o, dll.Remove o 0)) ;;
  match t with
  | Some k => modify (set_store (delete k))
  | None => panic "panic: interface conversion: interface is nil"
  end.

Definition Get (k : Key) : M lruCache (Val * bool) :=
  mu_Lock ;;
  defer mu_Unlock (
    c ← get;
    match store c !! k with
    | Some v => recentify k ;; ret (v, true)
    | None => ret (zero, false)
    end).

Definition Put (k : Key) (v : Val) : M lruCache unit :=
  mu_Lock ;;
  defer mu_Unlock (
    c ← get;
    match store c !! k with
    | Some _ =>
        modify (set_store (<[k := v]>)) ;;
        recentify k
    | None =>
        (if decide (Z.of_nat (size (store c)) = capacity c) then evict else ret tt) ;;
        modify (set_store (<[k := v]>)) ;;
        modify (set_order (λ o, dll.Add o k))
    end).

(** A client's calls, one after the other. *)
Definition exec (o : op Key Val) : M lruCache unit :=
  match o with
  | OpGet k => Get k ;; ret tt
  | OpPut k v => Put k v
  end.

Fixpoint run (ops : list (op Key Val)) : M lruCache unit :=
  match ops with
  | [] => ret tt
  | o :: ops' => exec o ;; run ops'
  end.

(** The comparisons of keys that recentify makes (in IndexOf) when it is
    called on [c], and those made during a call and during a list of calls. *)
Definition recentify_comparisons (k : Key) (c : lruCache) : nat :=
  dll.IndexOf_comparisons (order c) k.

Definition exec_comparisons (o : op Key Val) (c : lruCache) : nat :=
  match store c !! op_key o with
  | Some _ => recentify_comparisons (op_key o) c
  | None => 0%nat
  end.

Fixpoint run_comparisons (ops : list (op Key Val)) (c : lruCache) : nat :=
  match ops with
  | [] => 0%nat
  | o :: ops' =>
      (exec_comparisons o c +
       match exec o c with
       | Ok _ c' => run_comparisons ops' c'
       | _ => 0
       end)%nat
  end.

End lru.
Arguments lruCache Key {_ _} Val.
End LRU.

(** ** src/unnamed/part_000: the LRU cache over a slice

    On keys equal to themselves, as above, and for the capacities that a
    slice can have: the panic of make([]Key, 0, cap) on a larger capacity is
    in LRU_slice_any.NewLRU. *)

Module LRU_slice.
Section lru.
Context {Key : Type} `{Countable Key} {Val : Type} (zero : Val).

Record lruCache : Type := {
  capacity : Z;
  store : gmap Key Val;
  order : list Key;
  mu : sync.Mutex
}.

Definition set_store (f : gmap Key Val → gmap Key Val) (c : lruCache) : lruCache :=
  {| capacity := capacity c; store := f (store c); order := order c; mu := mu c |}.
Definition set_order (f : list Key → list Key) (c : lruCache) : lruCache :=
  {| capacity := capacity c; store := store c; order := f (order c); mu := mu c |}.
Definition set_mu (m : sync.Mutex) (c : lruCache) : lruCache :=
  {| capacity := capacity c; store := store c; order := order c; mu := m |}.

Definition mu_Lock : M lruCache unit := sync.on_lock mu set_mu sync.Mutex_Lock.
Definition mu_Unlock : M lruCache unit := sync.on_lock mu set_mu sync.Mutex_Unlock.

(** order: make([]Key, 0, cap) *)
Definition NewLRU (cap : Z) : option lruCache * option string :=
  if decide (cap <= 0) then (None, Some "capacity must be greater than zero")
  else (Some {| capacity := cap; store := ∅; order := []; mu := false |}, None).

(** evc := c.order[0]; c.order = c.order[1:]; return evc *)
Definition evict : M lruCache Key :=
  c ← get;
  match order c with
  | [] => panic "panic: runtime error: index out of range [0] with length 0"
  | evc :: _ => modify (set_order (drop 1)) ;; ret evc
  end.

(** c.order = slices.DeleteFunc(c.order, func(e Key) bool { return e == k });
    c.order = append(c.order, k) *)
Definition recentify (k : Key) : M lruCache unit :=
  modify (set_order (λ o, slices.DeleteFunc o (λ e, bool_decide (e = k)))) ;;
  modify (set_order (λ o, o ++ [k])).

Definition Get (k : Key) : M lruCache (Val * bool) :=
  mu_Lock ;;
  defer mu_Unlock (
    c ← get;
    match store c !! k with
    | Some val => recentify k ;; ret (val, true)
    | None => ret (zero, false)
    end).

Definition Put (k : Key) (v : Val) : M lruCache unit :=
  mu_Lock ;;
  defer mu_Unlock (
    c ← get;
    match store c !! k with
    | Some _ =>
        recentify k ;;
        modify (set_store (<[k := v]>))
    | None =>
        (if decide (Z.of_nat (size (store c)) = capacity c)
         then evc ← evict; modify (set_store (delete evc))
         else ret tt) ;;
        recentify k ;;
        modify (set_store (<[k := v]>))
    end).

Definition exec (o : op Key Val) : M lruCache unit :=
  match o with
  | OpGet k => Get k ;; ret tt
  | OpPut k v => Put k v
  end.

Fixpoint run (ops : list (op Key Val)) : M lruCache unit :=
  match ops with
  | [] => ret tt
  | o :: ops' => exec o ;; run ops'
  end.

(** The calls of the predicate that recentify makes (in DeleteFunc). *)
Definition recentify_comparisons (k : Key) (c : lruCache) : nat :=
  slices.DeleteFunc_calls (order c) (λ e, bool_decide (e = k)).

End lru.
Arguments lruCache Key {_ _} Val.
End LRU_slice.

(** ** src/ttl/ttl.go: the TTL cache of package ttl

    Every method is given [now], the reading of the clock at the call: a
    call takes no time, and the calls of time.Now and time.Since inside it
    all read [now].  The keys are equal to themselves, as above; TTL_any has
    the cache on every comparable key type. *)

Module TTL.
Section ttl.
Context {Key : Type} `{Countable Key} {Val : Type} (zero : Val).

Record cacheEntry : Type := {
  val : Val;
  lastVisited : time.Time
}.

Record TTLCache : Type := {
  storege : gmap Key cacheEntry;
  timeToLive : time.Duration;
  resetOnRead : bool;
  mu : sync.RWMutex;
  cleanupRunning : bool;
  cleanupMu : sync.Mutex
}.

Definition set_storege (f : gmap Key cacheEntry → gmap Key cacheEntry) (c : TTLCache) : TTLCache :=
  {| storege := f (storege c); timeToLive := timeToLive c; resetOnRead := resetOnRead c;
     mu := mu c; cleanupRunning := cleanupRunning c; cleanupMu := cleanupMu c |}.
Definition set_mu (m : sync.RWMutex) (c : TTLCache) : TTLCache :=
  {| storege := storege c; timeToLive := timeToLive c; resetOnRead := resetOnRead c;
     mu := m; cleanupRunning := cleanupRunning c; cleanupMu := cleanupMu c |}.
Definition set_cleanupRunning (b : bool) (c : TTLCache) : TTLCache :=
  {| storege := storege c; timeToLive := timeToLive c; resetOnRead := resetOnRead c;
     mu := mu c; cleanupRunning := b; cleanupMu := cleanupMu c |}.
Definition set_cleanupMu (m : sync.Mutex) (c : TTLCache) : TTLCache :=
  {| storege := storege c; timeToLive := timeToLive c; resetOnRead := resetOnRead c;
     mu := mu c; cleanupRunning := cleanupRunning c; cleanupMu := m |}.

Definition mu_RLock : M TTLCache unit := sync.on_lock mu set_mu sync.RLock.
Definition mu_RUnlock : M TTLCache unit := sync.on_lock mu set_mu sync.RUnlock.
Definition mu_Lock : M TTLCache unit := sync.on_lock mu set_mu sync.Lock.
Definition mu_Unlock : M TTLCache unit := sync.on_lock mu set_mu sync.Unlock.
Definition cleanupMu_Lock : M TTLCache unit :=
  sync.on_lock cleanupMu set_cleanupMu sync.Mutex_Lock.
Definition cleanupMu_Unlock : M TTLCache unit :=
  sync.on_lock cleanupMu set_cleanupMu sync.Mutex_Unlock.

Definition NewTTL (ttl : time.Duration) (ror : bool) : option TTLCache * option string :=
  if decide (ttl <= 0) then (None, Some "ttl must be greater than zero.")
  else (Some {| storege := ∅; timeToLive := ttl; resetOnRead := ror;
                mu := sync.RWMutex_zero; cleanupRunning := false; cleanupMu := false |},
        None).

(** e.lastVisited = time.Now(), through the pointer e that the map holds
    under the key. *)
Definition touch (now : time.Time) (e : cacheEntry) : cacheEntry :=
  {| val := val e; lastVisited := now |}.

(** Get after its first two lines (c.mu.RLock(); defer c.mu.RUnlock()), up
    to the values that its return statements hand over. *)
Definition Get_body (now : time.Time) (k : Key) : M TTLCache (Val * bool) :=
  c ← get;
  match storege c !! k with
  | None =>
      mu_RUnlock ;;
      ret (zero, false)
  | Some e =>
      if decide (time.Since now (lastVisited e) > timeToLive c) then
        mu_RUnlock ;;
        mu_Lock ;;
        modify (set_storege (delete k)) ;;
        mu_Unlock ;;
        ret (zero, false)
      else
        (if resetOnRead c then
           mu_RUnlock ;;
           mu_Lock ;;
           modify (set_storege (alter (touch now) k)) ;;
           mu_Unlock ;;
           mu_RLock
         else ret tt) ;;
        defer mu_RUnlock (ret (val e, true))
  end.

(** The RUnlock deferred on line 48 stays registered on every path, next to
    the explicit RUnlock calls of lines 52, 58 and 69 and to the second one
    deferred on line 78. *)
Definition Get (now : time.Time) (k : Key) : M TTLCache (Val * bool) :=
  mu_RLock ;;
  defer mu_RUnlock (Get_body now k).

Definition Put (now : time.Time) (k : Key) (v : Val) : M TTLCache unit :=
  mu_Lock ;;
  defer mu_Unlock (
    c ← get;
    match storege c !! k with
    | Some e =>
        modify (set_storege (alter (touch now) k)) ;;
        modify (set_storege (alter (λ e, {| val := v; lastVisited := lastVisited e |}) k))
    | None =>
        modify (set_storege (<[k := {| val := v; lastVisited := now |}]>))
    end).

Definition Size : M TTLCache Z :=
  mu_RLock ;;
  defer mu_RUnlock (c ← get; ret (Z.of_nat (size (storege c)))).

(** The body of the loop of Cleanup, on the entry [e] stored under [k]. *)
Definition sweep (now : time.Time) (ttl : time.Duration) (k : Key) (e : cacheEntry)
    (m : gmap Key cacheEntry) : gmap Key cacheEntry :=
  if decide (time.Since now (lastVisited e) >= ttl) then delete k m else m.

(** for k, e := range c.storege { ... }: the loop visits every entry of the
    map once; it deletes no entry but the one it is visiting. *)
Definition Cleanup (now : time.Time) : M TTLCache unit :=
  mu_Lock ;;
  defer mu_Unlock (
    c ← get;
    modify (set_storege (λ m, map_fold (sweep now (timeToLive c)) m m))).

(** The case that the select of the goroutine takes. *)
Inductive select_case : Type := TickerC | CtxDone.

(** The goroutine of ScheduleCleanup is goroutine [i] of the process.  It
    takes one step: it creates its ticker (NewTicker panics on an interval
    that is not positive), or it receives from ticker.C and calls Cleanup,
    or it receives from ctx.Done() and leaves the loop, or its deferred
    function runs and it is gone. *)
Definition routine_step (now : time.Time) (sel : select_case) (i : nat) :
    M (process TTLCache) unit :=
  p ← get;
  match routines p !! i with
  | None => ret tt
  | Some g =>
      match at_phase g with
      | Starting =>
          if decide (every g <= 0)
          then panic "panic: non-positive interval for NewTicker"
          else modify (set_routines
                 (<[i := {| ctx := ctx g; every := every g; at_phase := Ticking |}]>))
      | Ticking =>
          match sel with
          | TickerC => on_cache (Cleanup now)
          | CtxDone =>
              if decide (ctx g ∈ cancelled p)
              then modify (set_routines
                     (<[i := {| ctx := ctx g; every := every g; at_phase := Stopping |}]>))
              else ret tt
          end
      | Stopping =>
          on_cache cleanupMu_Lock ;;
          on_cache (modify (set_cleanupRunning false)) ;;
          on_cache cleanupMu_Unlock ;;
          modify (set_routines (delete i))
      end
  end.

Definition ScheduleCleanup (cx : nat) (e : time.Duration) : M (process TTLCache) unit :=
  on_cache cleanupMu_Lock ;;
  defer (on_cache cleanupMu_Unlock) (
    p ← get;
    if cleanupRunning (cache p) then ret tt
    else
      on_cache (modify (set_cleanupRunning true)) ;;
      go {| ctx := cx; every := e; at_phase := Starting |}).

(** What happens in a process that owns a cache: calls by its clients,
    cancellations, steps of the goroutines. *)
Inductive event : Type :=
| CallGet (now : time.Time) (k : Key)
| CallPut (now : time.Time) (k : Key) (v : Val)
| CallSize
| CallCleanup (now : time.Time)
| CallScheduleCleanup (cx : nat) (e : time.Duration)
| Cancel (cx : nat)
| Step (now : time.Time) (sel : select_case) (i : nat).

Definition happen (ev : event) : M (process TTLCache) unit :=
  match ev with
  | CallGet now k => on_cache (Get now k) ;; ret tt
  | CallPut now k v => on_cache (Put now k v)
  | CallSize => on_cache Size ;; ret tt
  | CallCleanup now => on_cache (Cleanup now)
  | CallScheduleCleanup cx e => ScheduleCleanup cx e
  | Cancel cx => modify (set_cancelled (λ d, {[cx]} ∪ d))
  | Step now sel i => routine_step now sel i
  end.

Fixpoint happen_all (evs : list event) : M (process TTLCache) unit :=
  match evs with
  | [] => ret tt
  | ev :: evs' => happen ev ;; happen_all evs'
  end.

Definition boot (c : TTLCache) : process TTLCache :=
  {| cache := c; routines := []; cancelled := ∅ |}.

End ttl.
Arguments cacheEntry Val : clear implicits.
Arguments TTLCache Key {_ _} Val.
Arguments event Key Val : clear implicits.
End TTL.

(** ** src/cache/lru.go, package cache: the first TTL cache

    On keys equal to themselves; TTL_cache_any has the cache on every
    comparable key type. *)

Module TTL_cache.
Section ttl.
Context {Key : Type} `{Countable Key} {Val : Type} (zero : Val).

Record cacheEntry : Type := {
  key : Key;
  val : Val;
  lastVisited : time.Time
}.

Record TTLCache : Type := {
  store : gmap Key cacheEntry;
  timeToLive : time.Duration;
  resetOnAccess : bool;
  mu : sync.Mutex
}.

Definition set_store (f : gmap Key cacheEntry → gmap Key cacheEntry) (c : TTLCache) : TTLCache :=
  {| store := f (store c); timeToLive := timeToLive c; resetOnAccess := resetOnAccess c;
     mu := mu c |}.
Definition set_mu (m : sync.Mutex) (c : TTLCache) : TTLCache :=
  {| store := store c; timeToLive := timeToLive c; resetOnAccess := resetOnAccess c;
     mu := m |}.

Definition mu_Lock : M TTLCache unit := sync.on_lock mu set_mu sync.Mutex_Lock.
Definition mu_Unlock : M TTLCache unit := sync.on_lock mu set_mu sync.Mutex_Unlock.

Definition NewTTL (ttl : time.Duration) (roa : bool) : option TTLCache * option string :=
  if decide (ttl <= 0) then (None, Some "ttl must be greater than zero.")
  else (Some {| store := ∅; timeToLive := ttl; resetOnAccess := roa; mu := false |}, None).

Definition touch (now : time.Time) (e : cacheEntry) : cacheEntry :=
  {| key := key e; val := val e; lastVisited := now |}.

(** This Get does not look at the age of the entry. *)
Definition Get (now : time.Time) (k : Key) : M TTLCache (Val * bool) :=
  mu_Lock ;;
  defer mu_Unlock (
    c ← get;
    match store c !! k with
    | Some e =>
        (if resetOnAccess c then modify (set_store (alter (touch now) k)) else ret tt) ;;
        ret (val e, true)
    | None => ret (zero, false)
    end).

Definition Put (now : time.Time) (k : Key) (v : Val) : M TTLCache unit :=
  mu_Lock ;;
  defer mu_Unlock (
    c ← get;
    match store c !! k with
    | Some e =>
        modify (set_store (alter (touch now) k)) ;;
        modify (set_store
          (alter (λ e, {| key := key e; val := v; lastVisited := lastVisited e |}) k))
    | None =>
        modify (set_store (<[k := {| key := k; val := v; lastVisited := now |}]>))
    end).

Definition Size : M TTLCache Z :=
  mu_Lock ;;
  defer mu_Unlock (c ← get; ret (Z.of_nat (size (store c)))).

Definition sweep (now : time.Time) (ttl : time.Duration) (k : Key) (e : cacheEntry)
    (m : gmap Key cacheEntry) : gmap Key cacheEntry :=
  if decide (time.Since now (lastVisited e) >= ttl) then delete k m else m.

Definition Cleanup (now : time.Time) : M TTLCache unit :=
  mu_Lock ;;
  defer mu_Unlock (
    c ← get;
    modify (set_store (λ m, map_fold (sweep now (timeToLive c)) m m))).

(** This ScheduleCleanup starts a goroutine on every call. *)
Definition ScheduleCleanup (cx : nat) (e : time.Duration) : M (process TTLCache) unit :=
  go {| ctx := cx; every := e; at_phase := Starting |}.

Definition boot (c : TTLCache) : process TTLCache :=
  {| cache := c; routines := []; cancelled := ∅ |}.

End ttl.
Arguments cacheEntry : clear implicits.
Arguments TTLCache Key {_ _} Val.
End TTL_cache.

(** ** Scenarios of the caches, on string keys and integer values *)

Module scenario.

(** NewLRU[string, int](cap), for a positive cap. *)
Definition lru (cap : Z) : LRU.lruCache string Z :=
  {| LRU.capacity := cap; LRU.store := ∅; LRU.order := []; LRU.mu := false |}.

(** An LRU cache of capacity 2 between two calls. *)
Definition lru2 (o : list string) (kvs : list (string * Z)) : LRU.lruCache string Z :=
  {| LRU.capacity := 2; LRU.store := list_to_map kvs; LRU.order := o; LRU.mu := false |}.

(** Put(A,1), Put(B,2), Get(A), Put(C,3) *)
Definition calls : list (op string Z) :=
  [OpPut "A" 1; OpPut "B" 2; OpGet "A"; OpPut "C" 3].

(** Put(0,0), ..., Put(n-1,0), then n times Get(n-1), on integer keys. *)
Definition fill (n : nat) : list (op nat Z) := (λ i, OpPut i 0) <$> seq 0 n.
Definition reread (n : nat) : list (op nat Z) := replicate n (OpGet (pred n)).

Definition ms (n : Z) : time.Duration := n * time.Millisecond.

(** A TTL cache of package ttl between two calls, no cleanup scheduled. *)
Definition entry (v : Z) (t : time.Time) : TTL.cacheEntry Z :=
  {| TTL.val := v; TTL.lastVisited := t |}.

Definition ttl (d : time.Duration) (ror : bool)
    (es : list (string * TTL.cacheEntry Z)) : TTL.TTLCache string Z :=
  {| TTL.storege := list_to_map es; TTL.timeToLive := d; TTL.resetOnRead := ror;
     TTL.mu := sync.RWMutex_zero; TTL.cleanupRunning := false; TTL.cleanupMu := false |}.

(** The same cache while Get holds the read lock taken on line 47. *)
Definition rlocked (c : TTL.TTLCache string Z) : TTL.TTLCache string Z :=
  TTL.set_mu {| sync.readers := 1; sync.writer := false |} c.

(** A TTL cache of package cache between two calls. *)
Definition entry1 (k : string) (v : Z) (t : time.Time) : TTL_cache.cacheEntry string Z :=
  {| TTL_cache.key := k; TTL_cache.val := v; TTL_cache.lastVisited := t |}.

Definition ttl1 (d : time.Duration) (roa : bool)
    (es : list (string * TTL_cache.cacheEntry string Z)) : TTL_cache.TTLCache string Z :=
  {| TTL_cache.store := list_to_map es; TTL_cache.timeToLive := d;
     TTL_cache.resetOnAccess := roa; TTL_cache.mu := false |}.

End scenario.

(** ** Well-formed caches *)

Section invariants.
Context {Key : Type} `{Countable Key} {Val : Type}.

(** The state of an LRU cache between two calls: the lock is free, the
    ordering lists the keys of the store, each once, and there are no more of
    them than the capacity. *)
Record lru_inv (c : LRU.lruCache Key Val) : Prop := {
  inv_capacity : 0 < LRU.capacity c;
  inv_mu : LRU.mu c = false;
  inv_nodup : NoDup (LRU.order c);
  inv_keys : ∀ k, k ∈ LRU.order c ↔ is_Some (LRU.store c !! k);
  inv_size : Z.of_nat (size (LRU.store c)) <= LRU.capacity c
}.

(** The ordering runs from the key touched least recently to the key touched
    most recently: every key of it was touched, and less recently than the
    keys after it. *)
Definition by_recency (ops : list (op Key Val)) (o : list Key) : Prop :=
  StronglySorted (older ops) o ∧ Forall (λ k, is_Some (age k ops)) o.

(** Moving [k] to the most recently used position. *)
Definition promote (k : Key) (o : list Key) : list Key :=
  filter (λ e, e ≠ k) o ++ [k].

(** The slice-based cache, read as a list-based cache: same capacity, same
    store, same keys in the same order. *)
Definition slice_view (c : LRU_slice.lruCache Key Val) : LRU.lruCache Key Val :=
  {| LRU.capacity := LRU_slice.capacity c; LRU.store := LRU_slice.store c;
     LRU.order := LRU_slice.order c; LRU.mu := LRU_slice.mu c |}.

End invariants.

Section ttl_invariants.
Context {Key : Type} `{Countable Key} {Val : Type} (zero : Val).

(** The state of a TTL cache between two calls: its locks are free and its
    time to live is a positive Duration. *)
Record ttl_inv (c : TTL.TTLCache Key Val) : Prop := {
  ttl_mu : TTL.mu c = sync.RWMutex_zero;
  ttl_cleanupMu : TTL.cleanupMu c = false;
  ttl_positive : 0 < TTL.timeToLive c;
  ttl_Duration : TTL.timeToLive c <= time.maxDuration
}.

(** The processes that own a cache made by NewTTL, after any events. *)
Inductive reachable : process (TTL.TTLCache Key Val) → Prop :=
| reach_boot ttl ror c :
    ttl <= time.maxDuration →
    TTL.NewTTL ttl ror = (Some c, None) →
    reachable (TTL.boot c)
| reach_happen p ev p' :
    reachable p →
    TTL.happen zero ev p = Ok tt p' →
    reachable p'.

(** The flag cleanupRunning is set exactly while the goroutine of
    ScheduleCleanup exists, and there is at most one. *)
Definition one_routine (p : process (TTL.TTLCache Key Val)) : Prop :=
  match routines p with
  | [] => TTL.cleanupRunning (cache p) = false
  | [_] => TTL.cleanupRunning (cache p) = true
  | _ => False
  end.

(** The state of a process between two events. *)
Definition sched_inv (p : process (TTL.TTLCache Key Val)) : Prop :=
  TTL.mu (cache p) = sync.RWMutex_zero
  ∧ TTL.cleanupMu (cache p) = false
  ∧ one_routine p.

End ttl_invariants.

(** ** src/cache/lru.go, package cache: the LFU cache

    The methods take the lock and release it; their bodies are still to be
    written. *)

Module LFU.
Section lfu.
Context {Key : Type} `{Countable Key} {Val : Type} (zero : Val).

Record lfuCache : Type := {
  store : gmap Key Val;
  mu : sync.Mutex
}.

Definition set_mu (m : sync.Mutex) (c : lfuCache) : lfuCache :=
  {| store := store c; mu := m |}.

Definition mu_Lock : M lfuCache unit := sync.on_lock mu set_mu sync.Mutex_Lock.
Definition mu_Unlock : M lfuCache unit := sync.on_lock mu set_mu sync.Mutex_Unlock.

Definition Get (k : Key) : M lfuCache (Val * bool) :=
  mu_Lock ;;
  defer mu_Unlock (ret (zero, false)).

Definition Put (k : Key) (v : Val) : M lfuCache unit :=
  mu_Lock ;;
  defer mu_Unlock (ret tt).

Definition evict : M lfuCache unit := ret tt.

Definition exec (o : op Key Val) : M lfuCache unit :=
  match o with
  | OpGet k => Get k ;; ret tt
  | OpPut k v => Put k v
  end.

Fixpoint run (ops : list (op Key Val)) : M lfuCache unit :=
  match ops with
  | [] => ret tt
  | o :: ops' => exec o ;; run ops'
  end.

End lfu.
Arguments lfuCache Key {_ _} Val.
End LFU.

(** ** More about lists of calls *)

(** The value of the last Put of [k] among [ops]; None when there is none. *)
Definition last_put {Key Val} `{EqDecision Key} (k : Key) (ops : list (op Key Val)) :
    option Val :=
  last (omap (λ o, match o with
                   | OpPut k' v => if decide (k' = k) then Some v else None
                   | OpGet _ => None
                   end) ops).

(** Calls of the ScheduleCleanup of package cache, one after the other, each
    with its context and its interval. *)
Fixpoint schedule_each {Key Val} `{Countable Key}
    (calls : list (nat * time.Duration)) :
    M (process (TTL_cache.TTLCache Key Val)) unit :=
  match calls with
  | [] => ret tt
  | (cx, e) :: calls' => TTL_cache.ScheduleCleanup cx e ;; schedule_each calls'
  end.

(** * The caches on every comparable key type

    Go's comparable admits key types with values that are not equal to
    themselves: a floating-point NaN.  A map never finds such a key: a lookup
    misses, an assignment adds one more entry, delete removes nothing; len
    and range still see the entries.  [selfeq k] tells whether [k == k].
    Values that are equal by == are one key. *)

(** Go's [a == b] on keys. *)
Definition keq {K : Type} `{EqDecision K} (selfeq : K → bool) (a b : K) : bool :=
  selfeq b && bool_decide (a = b).

(** ** A Go map *)

Module gomap.
Section gomap.
Context {K : Type} `{Countable K} (selfeq : K → bool) {V : Type}.

(** The entries a lookup can find, and the entries stored under keys that
    are not equal to themselves, which no lookup finds. *)
Record t : Type := {
  found : gmap K V;
  lost : list (K * V)
}.

(** make(map[K]V) *)
Definition make : t := {| found := ∅; lost := [] |}.

(** v, ok := m[k] *)
Definition lookup (k : K) (m : t) : option V :=
  if selfeq k then found m !! k else None.

(** m[k] = v *)
Definition store (k : K) (v : V) (m : t) : t :=
  if selfeq k then {| found := <[k := v]> (found m); lost := lost m |}
  else {| found := found m; lost := lost m ++ [(k, v)] |}.

(** delete(m, k) *)
Definition delete (k : K) (m : t) : t :=
  if selfeq k then {| found := base.delete k (found m); lost := lost m |}
  else m.

(** An assignment through the pointer that m[k] holds. *)
Definition update (f : V → V) (k : K) (m : t) : t :=
  if selfeq k then {| found := alter f k (found m); lost := lost m |}
  else m.

(** len(m) *)
Definition len (m : t) : nat := (size (found m) + length (lost m))%nat.

(** for k, v := range m { ... }: every entry is visited once, in an order
    that Go does not fix.  The loops of this repository delete no entry but
    the one they are visiting. *)
Definition range {B : Type} (f : K → V → B → B) (b : B) (m : t) : B :=
  foldl (λ acc kv, f kv.1 kv.2 acc) (map_fold f b (found m)) (lost m).

End gomap.
Arguments t K {_ _} V.
End gomap.

(** ** The doubly linked list, with the == of the keys *)

Module dll_any.
Section dll.
Context {A : Type} (eqb : A → A → bool).

(** IndexOf compares [element == value]; the second component counts the
    comparisons. *)
Fixpoint IndexOf_scan (index : Z) (v : A) (l : list A) : Z * nat :=
  match l with
  | [] => (-1, 0%nat)
  | x :: l' =>
      if eqb x v then (index, 1%nat)
      else let '(r, n) := IndexOf_scan (index + 1) v l' in (r, S n)
  end.

Definition IndexOf (l : list A) (v : A) : Z := fst (IndexOf_scan 0 v l).

End dll.
End dll_any.

(** ** src/cache/lru.go: the LRU cache over a doubly linked list, on every
    comparable key type *)

Module LRU_any.
Section lru.
Context {Key : Type} `{Countable Key} (selfeq : Key → bool) {Val : Type} (zero : Val).

Record lruCache : Type := {
  capacity : Z;
  store : gomap.t Key Val;
  order : list Key;
  mu : sync.Mutex
}.

Definition set_store (f : gomap.t Key Val → gomap.t Key Val) (c : lruCache) : lruCache :=
  {| capacity := capacity c; store := f (store c); order := order c; mu := mu c |}.
Definition set_order (f : list Key → list Key) (c : lruCache) : lruCache :=
  {| capacity := capacity c; store := store c; order := f (order c); mu := mu c |}.
Definition set_mu (m : sync.Mutex) (c : lruCache) : lruCache :=
  {| capacity := capacity c; store := store c; order := order c; mu := m |}.

Definition mu_Lock : M lruCache unit := sync.on_lock mu set_mu sync.Mutex_Lock.
Definition mu_Unlock : M lruCache unit := sync.on_lock mu set_mu sync.Mutex_Unlock.

Definition NewLRU (cap : Z) : option lruCache * option string :=
  if decide (cap <= 0) then (None, Some "capacity must be greater than zero")
  else (Some {| capacity := cap; store := gomap.make; order := dll.New; mu := false |},
        None).

(** c.order.Remove(c.order.IndexOf(k)); c.order.Add(k) *)
Definition recentify (k : Key) : M lruCache unit :=
  modify (set_order (λ o, dll.Remove o (dll_any.IndexOf (keq selfeq) o k))) ;;
  modify (set_order (λ o, dll.Add o k)).

(** t, _ := c.order.Get(0); c.order.Remove(0); delete(c.store, t.(Key)) *)
Definition evict : M lruCache unit :=
  c ← get;
  let t := dll.Get (order c) 0 in
  modify (set_order (λ o, dll.Remove o 0)) ;;
  match t with
  | Some k => modify (set_store (gomap.delete selfeq k))
  | None => panic "panic: interface conversion: interface is nil"
  end.

Definition Get (k : Key) : M lruCache (Val * bool) :=
  mu_Lock ;;
  defer mu_Unlock (
    c ← get;
    match gomap.lookup selfeq k (store c) with
    | Some v => recentify k ;; ret (v, true)
    | None => ret (zero, false)
    end).

Definition Put (k : Key) (v : Val) : M lruCache unit :=
  mu_Lock ;;
  defer mu_Unlock (
    c ← get;
    match gomap.lookup selfeq k (store c) with
    | Some _ =>
        modify (set_store (gomap.store selfeq k v)) ;;
        recentify k
    | None =>
        (if decide (Z.of_nat (gomap.len (store c)) = capacity c) then evict else ret tt) ;;
        modify (set_store (gomap.store selfeq k v)) ;;
        modify (set_order (λ o, dll.Add o k))
    end).

Definition exec (o : op Key Val) : M lruCache unit :=
  match o with
  | OpGet k => Get k ;; ret tt
  | OpPut k v => Put k v
  end.

Fixpoint run (ops : list (op Key Val)) : M lruCache unit :=
  match ops with
  | [] => ret tt
  | o :: ops' => exec o ;; run ops'
  end.

End lru.
Arguments lruCache Key {_ _} Val.
End LRU_any.

(** ** src/unnamed/part_000: the LRU cache over a slice, on every comparable
    key type

    [max_cap] is the largest capacity for which make([]Key, 0, cap) returns
    a slice (the limit of the allocator divided by the size of a key); above
    it make panics. *)

Module LRU_slice_any.
Section lru.
Context {Key : Type} `{Countable Key} (selfeq : Key → bool) {Val : Type} (zero : Val).
Context (max_cap : Z).

Record lruCache : Type := {
  capacity : Z;
  store : gomap.t Key Val;
  order : list Key;
  mu : sync.Mutex
}.

Definition set_store (f : gomap.t Key Val → gomap.t Key Val) (c : lruCache) : lruCache :=
  {| capacity := capacity c; store := f (store c); order := order c; mu := mu c |}.
Definition set_order (f : list Key → list Key) (c : lruCache) : lruCache :=
  {| capacity := capacity c; store := store c; order := f (order c); mu := mu c |}.
Definition set_mu (m : sync.Mutex) (c : lruCache) : lruCache :=
  {| capacity := capacity c; store := store c; order := order c; mu := m |}.

Definition mu_Lock : M lruCache unit := sync.on_lock mu set_mu sync.Mutex_Lock.
Definition mu_Unlock : M lruCache unit := sync.on_lock mu set_mu sync.Mutex_Unlock.

(** NewLRU either returns its pair (cache, error) or panics in make. *)
Definition NewLRU (cap : Z) : result unit (option lruCache * option string) :=
  if decide (cap <= 0) then Ok (None, Some "capacity must be greater than zero") tt
  else if decide (max_cap < cap)
       then Fatal "panic: runtime error: makeslice: cap out of range" tt
       else Ok (Some {| capacity := cap; store := gomap.make; order := []; mu := false |},
                None) tt.

Definition evict : M lruCache Key :=
  c ← get;
  match order c with
  | [] => panic "panic: runtime error: index out of range [0] with length 0"
  | evc :: _ => modify (set_order (drop 1)) ;; ret evc
  end.

Definition recentify (k : Key) : M lruCache unit :=
  modify (set_order (λ o, slices.DeleteFunc o (λ e, keq selfeq e k))) ;;
  modify (set_order (λ o, o ++ [k])).

Definition Get (k : Key) : M lruCache (Val * bool) :=
  mu_Lock ;;
  defer mu_Unlock (
    c ← get;
    match gomap.lookup selfeq k (store c) with
    | Some val => recentify k ;; ret (val, true)
    | None => ret (zero, false)
    end).

Definition Put (k : Key) (v : Val) : M lruCache unit :=
  mu_Lock ;;
  defer mu_Unlock (
    c ← get;
    match gomap.lookup selfeq k (store c) with
    | Some _ =>
        recentify k ;;
        modify (set_store (gomap.store selfeq k v))
    | None =>
        (if decide (Z.of_nat (gomap.len (store c)) = capacity c)
         then evc ← evict; modify (set_store (gomap.delete selfeq evc))
         else ret tt) ;;
        recentify k ;;
        modify (set_store (gomap.store selfeq k v))
    end).

Definition exec (o : op Key Val) : M lruCache unit :=
  match o with
  | OpGet k => Get k ;; ret tt
  | OpPut k v => Put k v
  end.

Fixpoint run (ops : list (op Key Val)) : M lruCache unit :=
  match ops with
  | [] => ret tt
  | o :: ops' => exec o ;; run ops'
  end.

End lru.
Arguments lruCache Key {_ _} Val.
End LRU_slice_any.

(** ** src/ttl/ttl.go: the TTL cache of package ttl, on every comparable key
    type *)

Module TTL_any.
Section ttl.
Context {Key : Type} `{Countable Key} (selfeq : Key → bool) {Val : Type} (zero : Val).

Record TTLCache : Type := {
  storege : gomap.t Key (TTL.cacheEntry Val);
  timeToLive : time.Duration;
  resetOnRead : bool;
  mu : sync.RWMutex;
  cleanupRunning : bool;
  cleanupMu : sync.Mutex
}.

Definition set_storege
    (f : gomap.t Key (TTL.cacheEntry Val) → gomap.t Key (TTL.cacheEntry Val))
    (c : TTLCache) : TTLCache :=
  {| storege := f (storege c); timeToLive := timeToLive c; resetOnRead := resetOnRead c;
     mu := mu c; cleanupRunning := cleanupRunning c; cleanupMu := cleanupMu c |}.
Definition set_mu (m : sync.RWMutex) (c : TTLCache) : TTLCache :=
  {| storege := storege c; timeToLive := timeToLive c; resetOnRead := resetOnRead c;
     mu := m; cleanupRunning := cleanupRunning c; cleanupMu := cleanupMu c |}.
Definition set_cleanupRunning (b : bool) (c : TTLCache) : TTLCache :=
  {| storege := storege c; timeToLive := timeToLive c; resetOnRead := resetOnRead c;
     mu := mu c; cleanupRunning := b; cleanupMu := cleanupMu c |}.
Definition set_cleanupMu (m : sync.Mutex) (c : TTLCache) : TTLCache :=
  {| storege := storege c; timeToLive := timeToLive c; resetOnRead := resetOnRead c;
     mu := mu c; cleanupRunning := cleanupRunning c; cleanupMu := m |}.

Definition mu_RLock : M TTLCache unit := sync.on_lock mu set_mu sync.RLock.
Definition mu_RUnlock : M TTLCache unit := sync.on_lock mu set_mu sync.RUnlock.
Definition mu_Lock : M TTLCache unit := sync.on_lock mu set_mu sync.Lock.
Definition mu_Unlock : M TTLCache unit := sync.on_lock mu set_mu sync.Unlock.
Definition cleanupMu_Lock : M TTLCache unit :=
  sync.on_lock cleanupMu set_cleanupMu sync.Mutex_Lock.
Definition cleanupMu_Unlock : M TTLCache unit :=
  sync.on_lock cleanupMu set_cleanupMu sync.Mutex_Unlock.

Definition NewTTL (ttl : time.Duration) (ror : bool) : option TTLCache * option string :=
  if decide (ttl <= 0) then (None, Some "ttl must be greater than zero.")
  else (Some {| storege := gomap.make; timeToLive := ttl; resetOnRead := ror;
                mu := sync.RWMutex_zero; cleanupRunning := false; cleanupMu := false |},
        None).

Definition Get_body (now : time.Time) (k : Key) : M TTLCache (Val * bool) :=
  c ← get;
  match gomap.lookup selfeq k (storege c) with
  | None =>
      mu_RUnlock ;;
      ret (zero, false)
  | Some e =>
      if decide (time.Since now (TTL.lastVisited e) > timeToLive c) then
        mu_RUnlock ;;
        mu_Lock ;;
        modify (set_storege (gomap.delete selfeq k)) ;;
        mu_Unlock ;;
        ret (zero, false)
      else
        (if resetOnRead c then
           mu_RUnlock ;;
           mu_Lock ;;
           modify (set_storege (gomap.update selfeq (TTL.touch now) k)) ;;
           mu_Unlock ;;
           mu_RLock
         else ret tt) ;;
        defer mu_RUnlock (ret (TTL.val e, true))
  end.

Definition Get (now : time.Time) (k : Key) : M TTLCache (Val * bool) :=
  mu_RLock ;;
  defer mu_RUnlock (Get_body now k).

Definition Put (now : time.Time) (k : Key) (v : Val) : M TTLCache unit :=
  mu_Lock ;;
  defer mu_Unlock (
    c ← get;
    match gomap.lookup selfeq k (storege c) with
    | Some e =>
        modify (set_storege (gomap.update selfeq (TTL.touch now) k)) ;;
        modify (set_storege
          (gomap.update selfeq
             (λ e, {| TTL.val := v; TTL.lastVisited := TTL.lastVisited e |}) k))
    | None =>
        modify (set_storege
          (gomap.store selfeq k {| TTL.val := v; TTL.lastVisited := now |}))
    end).

Definition Size : M TTLCache Z :=
  mu_RLock ;;
  defer mu_RUnlock (c ← get; ret (Z.of_nat (gomap.len (storege c)))).

(** The body of the loop of Cleanup, on the entry [e] stored under [k]. *)
Definition sweep (now : time.Time) (ttl : time.Duration) (k : Key) (e : TTL.cacheEntry Val)
    (m : gomap.t Key (TTL.cacheEntry Val)) : gomap.t Key (TTL.cacheEntry Val) :=
  if decide (time.Since now (TTL.lastVisited e) >= ttl) then gomap.delete selfeq k m else m.

Definition Cleanup (now : time.Time) : M TTLCache unit :=
  mu_Lock ;;
  defer mu_Unlock (
    c ← get;
    modify (set_storege (λ m, gomap.range (sweep now (timeToLive c)) m m))).

Definition routine_step (now : time.Time) (sel : TTL.select_case) (i : nat) :
    M (process TTLCache) unit :=
  p ← get;
  match routines p !! i with
  | None => ret tt
  | Some g =>
      match at_phase g with
      | Starting =>
          if decide (every g <= 0)
          then panic "panic: non-positive interval for NewTicker"
          else modify (set_routines
                 (<[i := {| ctx := ctx g; every := every g; at_phase := Ticking |}]>))
      | Ticking =>
          match sel with
          | TTL.TickerC => on_cache (Cleanup now)
          | TTL.CtxDone =>
              if decide (ctx g ∈ cancelled p)
              then modify (set_routines
                     (<[i := {| ctx := ctx g; every := every g; at_phase := Stopping |}]>))
              else ret tt
          end
      | Stopping =>
          on_cache cleanupMu_Lock ;;
          on_cache (modify (set_cleanupRunning false)) ;;
          on_cache cleanupMu_Unlock ;;
          modify (set_routines (base.delete i))
      end
  end.

Definition ScheduleCleanup (cx : nat) (e : time.Duration) : M (process TTLCache) unit :=
  on_cache cleanupMu_Lock ;;
  defer (on_cache cleanupMu_Unlock) (
    p ← get;
    if cleanupRunning (cache p) then ret tt
    else
      on_cache (modify (set_cleanupRunning true)) ;;
      go {| ctx := cx; every := e; at_phase := Starting |}).

End ttl.
Arguments TTLCache Key {_ _} Val.
End TTL_any.

(** ** src/cache/lru.go, package cache: the first TTL cache, on every
    comparable key type *)

Module TTL_cache_any.
Section ttl.
Context {Key : Type} `{Countable Key} (selfeq : Key → bool) {Val : Type} (zero : Val).

Record TTLCache : Type := {
  store : gomap.t Key (TTL_cache.cacheEntry Key Val);
  timeToLive : time.Duration;
  resetOnAccess : bool;
  mu : sync.Mutex
}.

Definition set_store
    (f : gomap.t Key (TTL_cache.cacheEntry Key Val) →
         gomap.t Key (TTL_cache.cacheEntry Key Val))
    (c : TTLCache) : TTLCache :=
  {| store := f (store c); timeToLive := timeToLive c; resetOnAccess := resetOnAccess c;
     mu := mu c |}.
Definition set_mu (m : sync.Mutex) (c : TTLCache) : TTLCache :=
  {| store := store c; timeToLive := timeToLive c; resetOnAccess := resetOnAccess c;
     mu := m |}.

Definition mu_Lock : M TTLCache unit := sync.on_lock mu set_mu sync.Mutex_Lock.
Definition mu_Unlock : M TTLCache unit := sync.on_lock mu set_mu sync.Mutex_Unlock.

Definition NewTTL (ttl : time.Duration) (roa : bool) : option TTLCache * option string :=
  if decide (ttl <= 0) then (None, Some "ttl must be greater than zero.")
  else (Some {| store := gomap.make; timeToLive := ttl; resetOnAccess := roa;
                mu := false |}, None).

Definition Get (now : time.Time) (k : Key) : M TTLCache (Val * bool) :=
  mu_Lock ;;
  defer mu_Unlock (
    c ← get;
    match gomap.lookup selfeq k (store c) with
    | Some e =>
        (if resetOnAccess c
         then modify (set_store (gomap.update selfeq (TTL_cache.touch now) k))
         else ret tt) ;;
        ret (TTL_cache.val e, true)
    | None => ret (zero, false)
    end).

Definition Put (now : time.Time) (k : Key) (v : Val) : M TTLCache unit :=
  mu_Lock ;;
  defer mu_Unlock (
    c ← get;
    match gomap.lookup selfeq k (store c) with
    | Some e =>
        modify (set_store (gomap.update selfeq (TTL_cache.touch now) k)) ;;
        modify (set_store
          (gomap.update selfeq
             (λ e, {| TTL_cache.key := TTL_cache.key e; TTL_cache.val := v;
                      TTL_cache.lastVisited := TTL_cache.lastVisited e |}) k))
    | None =>
        modify (set_store
          (gomap.store selfeq k
             {| TTL_cache.key := k; TTL_cache.val := v; TTL_cache.lastVisited := now |}))
    end).

Definition Size : M TTLCache Z :=
  mu_Lock ;;
  defer mu_Unlock (c ← get; ret (Z.of_nat (gomap.len (store c)))).

Definition sweep (now : time.Time) (ttl : time.Duration) (k : Key)
    (e : TTL_cache.cacheEntry Key Val)
    (m : gomap.t Key (TTL_cache.cacheEntry Key Val)) :
    gomap.t Key (TTL_cache.cacheEntry Key Val) :=
  if decide (time.Since now (TTL_cache.lastVisited e) >= ttl)
  then gomap.delete selfeq k m else m.

Definition Cleanup (now : time.Time) : M TTLCache unit :=
  mu_Lock ;;
  defer mu_Unlock (
    c ← get;
    modify (set_store (λ m, gomap.range (sweep now (timeToLive c)) m m))).

End ttl.
Arguments TTLCache Key {_ _} Val.
End TTL_cache_any.

(** ** Keys of type float64

    As far as a map tells them apart: numbers (the integers stand for them)
    and NaN, the value that is not equal to itself. *)

Inductive f64 : Type := Num (z : Z) | NaN.

#[global] Instance f64_eq_dec : EqDecision f64.
Proof. solve_decision. Defined.

#[global] Instance f64_countable : Countable f64 :=
  inj_countable' (λ x, match x with Num z => Some z | NaN => None end)
                 (λ o, match o with Some z => Num z | None => NaN end)
                 (λ x, match x with Num _ | NaN => eq_refl end).

Definition f64_selfeq (x : f64) : bool :=
  match x with Num _ => true | NaN => false end.


(** Scenarios on float64 keys and integer values. *)
Module scenario_f64.

(** NewLRU[float64, int](cap), for a positive cap. *)
Definition lru (cap : Z) : LRU_any.lruCache f64 Z :=
  {| LRU_any.capacity := cap; LRU_any.store := gomap.make; LRU_any.order := [];
     LRU_any.mu := false |}.


(** The slice-based LRU cache between two calls. *)
Definition slice_at (cap : Z) (o : list f64) (kvs nans : list (f64 * Z)) :
    LRU_slice_any.lruCache f64 Z :=
  {| LRU_slice_any.capacity := cap;
     LRU_slice_any.store := {| gomap.found := list_to_map kvs; gomap.lost := nans |};
     LRU_slice_any.order := o; LRU_slice_any.mu := false |}.

(** A TTL cache of package ttl between two calls, no cleanup scheduled. *)
Definition ttl (d : time.Duration) (ror : bool)
    (es nans : list (f64 * TTL.cacheEntry Z)) : TTL_any.TTLCache f64 Z :=
  {| TTL_any.storege := {| gomap.found := list_to_map es; gomap.lost := nans |};
     TTL_any.timeToLive := d; TTL_any.resetOnRead := ror;
     TTL_any.mu := sync.RWMutex_zero; TTL_any.cleanupRunning := false;
     TTL_any.cleanupMu := false |}.

(** A TTL cache of package cache between two calls. *)
Definition ttl1 (d : time.Duration) (roa : bool)
    (es nans : list (f64 * TTL_cache.cacheEntry f64 Z)) : TTL_cache_any.TTLCache f64 Z :=
  {| TTL_cache_any.store := {| gomap.found := list_to_map es; gomap.lost := nans |};
     TTL_cache_any.timeToLive := d; TTL_cache_any.resetOnAccess := roa;
     TTL_cache_any.mu := false |}.

End scenario_f64.

(** ** The caches of the first part are these caches, for keys equal to
    themselves *)

Section views.
Context {Key : Type} `{Countable Key} {Val : Type}.








End views.

(** ** Well-formed caches, on every comparable key type *)

Section any_invariants.
Context {Key : Type} `{Countable Key} (selfeq : Key → bool) {Val : Type}.

(** A map as assignments build it: the entries a lookup finds are stored
    under keys equal to themselves, the others are not. *)
Definition gomap_wf {V : Type} (m : gomap.t Key V) : Prop :=
  (∀ k, is_Some (gomap.found m !! k) → selfeq k = true)
  ∧ Forall (λ kv, selfeq kv.1 = false) (gomap.lost m).

(** The state of a TTL cache between two calls: its locks are free, its time
    to live is a positive Duration, its store is a map. *)
Record ttl_any_inv (c : TTL_any.TTLCache Key Val) : Prop := {
  ttl_any_mu : TTL_any.mu c = sync.RWMutex_zero;
  ttl_any_cleanupMu : TTL_any.cleanupMu c = false;
  ttl_any_positive : 0 < TTL_any.timeToLive c;
  ttl_any_Duration : TTL_any.timeToLive c <= time.maxDuration;
  ttl_any_store : gomap_wf (TTL_any.storege c)
}.

(** The state of a TTL cache of package cache between two calls. *)
Record ttl1_any_inv (c : TTL_cache_any.TTLCache Key Val) : Prop := {
  ttl1_any_mu : TTL_cache_any.mu c = false;
  ttl1_any_positive : 0 < TTL_cache_any.timeToLive c;
  ttl1_any_Duration : TTL_cache_any.timeToLive c <= time.maxDuration;
  ttl1_any_store : gomap_wf (TTL_cache_any.store c)
}.

End any_invariants.

(** * Properties *)

(** ** The monad *)

Lemma bind_Ok {St A B} (m : M St A) (f : A → M St B) s a s' :
  m s = Ok a s' → (m ≫= f) s = f a s'.
Proof. intros E. unfold mbind, M_bind, bind. by rewrite E. Qed.

(** ** The doubly linked list *)

Section dll_facts.
Context {A : Type} `{EqDecision A}.
Implicit Types (l : list A) (v : A).

Lemma IndexOf_scan_absent i v l :
  v ∉ l → dll.IndexOf_scan i v l = (-1, length l).
Proof.
  revert i. induction l as [|x l IH]; intros i Hv; simpl; [done|].
  apply not_elem_of_cons in Hv as [Hne Hv].
  destruct (decide (x = v)); [congruence|]. by rewrite IH.
Qed.

Lemma IndexOf_scan_present i v l1 l2 :
  v ∉ l1 →
  dll.IndexOf_scan i v (l1 ++ v :: l2) = (i + Z.of_nat (length l1), S (length l1)).
Proof.
  revert i. induction l1 as [|x l1 IH]; intros i Hv; simpl.
  - destruct (decide (v = v)); [|done]. f_equal. lia.
  - apply not_elem_of_cons in Hv as [Hne Hv].
    destruct (decide (x = v)); [congruence|]. rewrite IH by done. f_equal. lia.
Qed.

Lemma Remove_IndexOf_absent v l : v ∉ l → dll.Remove l (dll.IndexOf l v) = l.
Proof.
  intros Hv. unfold dll.IndexOf. by rewrite IndexOf_scan_absent.
Qed.

Lemma Remove_IndexOf_present v l1 l2 :
  v ∉ l1 → dll.Remove (l1 ++ v :: l2) (dll.IndexOf (l1 ++ v :: l2) v) = l1 ++ l2.
Proof.
  intros Hv. unfold dll.IndexOf. rewrite IndexOf_scan_present by done. simpl.
  unfold dll.Remove, dll.withinRange, dll.Size.
  rewrite length_app. simpl.
  destruct (_ && _) eqn:E.
  - rewrite Z.add_0_l, Nat2Z.id.
    rewrite delete_take_drop, take_app_length.
    rewrite drop_app_ge by lia.
    by replace (S (length l1) - length l1)%nat with 1%nat by lia.
  - apply andb_false_iff in E as [E|E]; [apply Z.leb_gt in E|apply Z.ltb_ge in E]; lia.
Qed.

Lemma filter_ne_absent v l : v ∉ l → filter (λ e, e ≠ v) l = l.
Proof.
  induction l as [|x l IH]; [done|].
  intros [Hne Hv]%not_elem_of_cons.
  rewrite filter_cons_True by done. by rewrite IH.
Qed.

(** On a list without duplicates, removing the first [v] leaves the
    elements other than [v]. *)
Lemma Remove_IndexOf_filter v l :
  NoDup l → dll.Remove l (dll.IndexOf l v) = filter (λ e, e ≠ v) l.
Proof.
  intros Hnd. destruct (decide (v ∈ l)) as [Hin|Hin].
  - apply list_elem_of_split_l in Hin as (l1 & l2 & -> & Hv1).
    apply NoDup_app in Hnd as (_ & _ & Hnd2).
    apply NoDup_cons in Hnd2 as [Hv2 _].
    rewrite Remove_IndexOf_present by done.
    rewrite filter_app, filter_cons_False by naive_solver.
    by rewrite !filter_ne_absent.
  - rewrite Remove_IndexOf_absent by done. by rewrite filter_ne_absent.
Qed.

End dll_facts.

(** ** The LRU cache over the doubly linked list, call by call *)

Section lru_calls.
Context {Key : Type} `{Countable Key} {Val : Type} (zero : Val).
Implicit Types (c : LRU.lruCache Key Val) (k : Key) (v : Val).

Lemma LRU_Get_hit c k v :
  LRU.mu c = false → LRU.store c !! k = Some v →
  LRU.Get zero k c =
    Ok (v, true) (LRU.set_order (λ o, dll.Add (dll.Remove o (dll.IndexOf o k)) k) c).
Proof.
  destruct c as [cap st o m]; simpl; intros -> E.
  unfold LRU.Get, defer, mbind, M_bind, bind; simpl. by rewrite E.
Qed.

Lemma LRU_Get_miss c k :
  LRU.mu c = false → LRU.store c !! k = None →
  LRU.Get zero k c = Ok (zero, false) c.
Proof.
  destruct c as [cap st o m]; simpl; intros -> E.
  unfold LRU.Get, defer, mbind, M_bind, bind; simpl. by rewrite E.
Qed.

Lemma LRU_Put_present c k v v0 :
  LRU.mu c = false → LRU.store c !! k = Some v0 →
  LRU.Put k v c =
    Ok tt (LRU.set_order (λ o, dll.Add (dll.Remove o (dll.IndexOf o k)) k)
             (LRU.set_store (<[k := v]>) c)).
Proof.
  destruct c as [cap st o m]; simpl; intros -> E.
  unfold LRU.Put, defer, mbind, M_bind, bind; simpl. by rewrite E.
Qed.

Lemma LRU_Put_absent_room c k v :
  LRU.mu c = false → LRU.store c !! k = None →
  Z.of_nat (size (LRU.store c)) ≠ LRU.capacity c →
  LRU.Put k v c =
    Ok tt (LRU.set_order (λ o, dll.Add o k) (LRU.set_store (<[k := v]>) c)).
Proof.
  destruct c as [cap st o m]; simpl; intros -> E Hsz.
  unfold LRU.Put, defer, mbind, M_bind, bind; simpl. rewrite E.
  by destruct (decide _).
Qed.

Lemma LRU_evict_cons c h t :
  LRU.order c = h :: t →
  LRU.evict c = Ok tt (LRU.set_store (delete h) (LRU.set_order (λ _, t) c)).
Proof.
  destruct c as [cap st o m]; simpl; intros ->.
  unfold LRU.evict, mbind, M_bind, bind; simpl. done.
Qed.

Lemma LRU_evict_nil c :
  LRU.order c = [] →
  LRU.evict c = Fatal "panic: interface conversion: interface is nil" c.
Proof.
  destruct c as [cap st o m]; simpl; intros ->. done.
Qed.

Lemma LRU_Put_absent_full c k v h t :
  LRU.mu c = false → LRU.store c !! k = None →
  Z.of_nat (size (LRU.store c)) = LRU.capacity c →
  LRU.order c = h :: t →
  LRU.Put k v c =
    Ok tt (LRU.set_order (λ o, dll.Add o k)
            (LRU.set_store (<[k := v]>)
              (LRU.set_store (delete h) (LRU.set_order (λ _, t) c)))).
Proof.
  destruct c as [cap st o m]; simpl; intros -> E Hsz ->.
  unfold LRU.Put, defer, mbind, M_bind, bind; simpl. rewrite E.
  by destruct (decide _).
Qed.

End lru_calls.

(** ** The invariant of the LRU cache *)

Section lru_invariant.
Context {Key : Type} `{Countable Key} {Val : Type} (zero : Val).
Implicit Types (c : LRU.lruCache Key Val) (k : Key) (v : Val).

Lemma promote_NoDup k (o : list Key) : NoDup o → NoDup (promote k o).
Proof.
  intros Hnd. unfold promote. apply NoDup_app. split_and!.
  - by apply NoDup_filter.
  - intros x [Hx _]%list_elem_of_filter ->%list_elem_of_singleton. done.
  - apply NoDup_singleton.
Qed.

Lemma elem_of_promote k j (o : list Key) : j ∈ promote k o ↔ j = k ∨ j ∈ o.
Proof.
  unfold promote. rewrite elem_of_app, list_elem_of_filter, list_elem_of_singleton.
  destruct (decide (j = k)); naive_solver.
Qed.

Lemma last_promote k (o : list Key) : last (promote k o) = Some k.
Proof. apply last_snoc. Qed.

Lemma length_promote k (o : list Key) :
  NoDup o → k ∈ o → length (promote k o) = length o.
Proof.
  intros Hnd (l1 & l2 & -> & Hk1)%list_elem_of_split_l.
  apply NoDup_app in Hnd as (_ & _ & [Hk2 _]%NoDup_cons).
  unfold promote. rewrite filter_app, filter_cons_False by naive_solver.
  rewrite !filter_ne_absent by done. rewrite !length_app. simpl. lia.
Qed.

Lemma promote_Permutation k (o : list Key) :
  NoDup o → k ∈ o → promote k o ≡ₚ o.
Proof.
  intros Hnd (l1 & l2 & -> & Hk1)%list_elem_of_split_l.
  apply NoDup_app in Hnd as (_ & _ & [Hk2 _]%NoDup_cons).
  unfold promote. rewrite filter_app, filter_cons_False by naive_solver.
  rewrite !filter_ne_absent by done.
  rewrite <-(assoc_L (++)). apply Permutation_app_head.
  by rewrite Permutation_app_comm.
Qed.

Lemma lru_inv_length c : lru_inv c → length (LRU.order c) = size (LRU.store c).
Proof.
  intros [_ _ Hnd Hkeys _].
  rewrite <-size_dom, <-(size_list_to_set (C := gset Key)) by done.
  f_equal. apply set_eq. intros k.
  by rewrite elem_of_list_to_set, elem_of_dom, Hkeys.
Qed.

Lemma lru_inv_recentify c k :
  lru_inv c →
  dll.Add (dll.Remove (LRU.order c) (dll.IndexOf (LRU.order c) k)) k
  = promote k (LRU.order c).
Proof.
  intros Hinv. unfold dll.Add, promote.
  by rewrite Remove_IndexOf_filter by apply Hinv.
Qed.

Lemma lru_inv_Get_hit c k v :
  lru_inv c → LRU.store c !! k = Some v →
  LRU.Get zero k c = Ok (v, true) (LRU.set_order (promote k) c)
  ∧ lru_inv (LRU.set_order (promote k) c).
Proof.
  intros Hinv E. split.
  - rewrite (LRU_Get_hit zero c k v) by (done || apply Hinv).
    unfold LRU.set_order. by rewrite lru_inv_recentify.
  - destruct Hinv as [Hcap Hmu Hnd Hkeys Hsz].
    split; simpl; [done|done|by apply promote_NoDup| |done].
    intros j. rewrite elem_of_promote, <-Hkeys.
    assert (k ∈ LRU.order c) by (apply Hkeys; eauto). naive_solver.
Qed.

Lemma lru_inv_Put_present c k v v0 :
  lru_inv c → LRU.store c !! k = Some v0 →
  LRU.Put k v c = Ok tt (LRU.set_order (promote k) (LRU.set_store (<[k := v]>) c))
  ∧ lru_inv (LRU.set_order (promote k) (LRU.set_store (<[k := v]>) c)).
Proof.
  intros Hinv E. split.
  - rewrite (LRU_Put_present c k v v0) by (done || apply Hinv).
    unfold LRU.set_order; simpl. by rewrite lru_inv_recentify.
  - destruct Hinv as [Hcap Hmu Hnd Hkeys Hsz].
    assert (k ∈ LRU.order c) by (apply Hkeys; eauto).
    split; simpl; [done|done|by apply promote_NoDup| |].
    + intros j. rewrite elem_of_promote, lookup_insert_is_Some, <-Hkeys.
      destruct (decide (k = j)); naive_solver.
    + by rewrite map_size_insert_Some by eauto.
Qed.

Lemma lru_inv_Put_absent_room c k v :
  lru_inv c → LRU.store c !! k = None →
  Z.of_nat (size (LRU.store c)) ≠ LRU.capacity c →
  LRU.Put k v c = Ok tt (LRU.set_order (λ o, o ++ [k]) (LRU.set_store (<[k := v]>) c))
  ∧ lru_inv (LRU.set_order (λ o, o ++ [k]) (LRU.set_store (<[k := v]>) c)).
Proof.
  intros Hinv E Hroom. split.
  - by rewrite (LRU_Put_absent_room c k v) by (done || apply Hinv).
  - destruct Hinv as [Hcap Hmu Hnd Hkeys Hsz].
    assert (k ∉ LRU.order c) as Hk.
    { rewrite Hkeys, E. by intros [? ?]. }
    split; simpl; [done|done| | |].
    + apply NoDup_app. split_and!; [done| |apply NoDup_singleton].
      intros x Hx ->%list_elem_of_singleton. done.
    + intros j. rewrite elem_of_app, list_elem_of_singleton, lookup_insert_is_Some, <-Hkeys.
      destruct (decide (k = j)); naive_solver.
    + rewrite map_size_insert_None by done. lia.
Qed.

Lemma lru_inv_full_order c :
  lru_inv c → Z.of_nat (size (LRU.store c)) = LRU.capacity c →
  ∃ h t, LRU.order c = h :: t.
Proof.
  intros Hinv Hfull. pose proof (lru_inv_length c Hinv) as Hlen.
  destruct Hinv as [Hcap _ _ _ _].
  destruct (LRU.order c) as [|h t]; [simpl in Hlen; lia|eauto].
Qed.

Lemma lru_inv_Put_absent_full c k v h t :
  lru_inv c → LRU.store c !! k = None →
  Z.of_nat (size (LRU.store c)) = LRU.capacity c →
  LRU.order c = h :: t →
  let c1 := LRU.set_store (delete h) (LRU.set_order (λ _, t) c) in
  let c2 := LRU.set_order (λ o, o ++ [k]) (LRU.set_store (<[k := v]>) c1) in
  LRU.Put k v c = Ok tt c2
  ∧ Z.of_nat (size (LRU.store c1)) = LRU.capacity c - 1
  ∧ Z.of_nat (size (LRU.store c2)) = LRU.capacity c
  ∧ lru_inv c2.
Proof.
  intros Hinv E Hfull Ho c1 c2.
  assert (LRU.Put k v c = Ok tt c2) as HPut
    by (by rewrite (LRU_Put_absent_full c k v h t) by (done || apply Hinv)).
  destruct Hinv as [Hcap Hmu Hnd Hkeys Hsz].
  rewrite Ho in Hnd, Hkeys. apply NoDup_cons in Hnd as [Hht Hnd].
  assert (is_Some (LRU.store c !! h)) as [vh Hh] by (apply Hkeys; left).
  assert (k ≠ h) as Hkh by (intros ->; congruence).
  assert (k ∉ t) as Hk.
  { intros Hk. assert (is_Some (LRU.store c !! k)) as [? ?] by (apply Hkeys; by right).
    congruence. }
  assert (size (LRU.store c1) = pred (size (LRU.store c))) as Hsz1.
  { subst c1; simpl. by rewrite map_size_delete_Some by eauto. }
  assert (size (LRU.store c2) = size (LRU.store c)) as Hsz2.
  { subst c2 c1; simpl.
    rewrite map_size_insert_None by (by rewrite lookup_delete_ne).
    rewrite map_size_delete_Some by eauto.
    assert (size (LRU.store c) ≠ 0%nat) by lia. lia. }
  split_and!; [done|lia|lia|].
  split; [exact Hcap|exact Hmu| | |rewrite Hsz2; exact Hsz]; simpl.
  - apply NoDup_app. split_and!; [done| |apply NoDup_singleton].
    intros x Hx ->%list_elem_of_singleton. done.
  - intros j. rewrite elem_of_app, list_elem_of_singleton, lookup_insert_is_Some.
    destruct (decide (k = j)) as [->|Hne]; [naive_solver|].
    destruct (decide (j = h)) as [->|Hjh].
    + rewrite lookup_delete_eq. split; [intros [?|?]; done|].
      intros [?|[_ [? ?]]]; done.
    + rewrite lookup_delete_ne by done. rewrite <-Hkeys, elem_of_cons. naive_solver.
Qed.

End lru_invariant.

(** ** Ages of keys along a list of calls *)

Section recency.
Context {Key : Type} `{Countable Key} {Val : Type}.
Implicit Types (ops : list (op Key Val)) (o : op Key Val) (k : Key) (l : list Key).

Lemma age_nil k : age (Val := Val) k [] = None.
Proof. done. Qed.

Lemma age_snoc k ops o :
  age k (ops ++ [o]) = if decide (op_key o = k) then Some 0%nat else S <$> age k ops.
Proof.
  unfold age. rewrite reverse_snoc. simpl.
  destruct (decide (op_key o = k)); [done|].
  by destruct (list_find _ (reverse ops)) as [[i x]|].
Qed.

Lemma age_snoc_touch ops o : age (op_key o) (ops ++ [o]) = Some 0%nat.
Proof. rewrite age_snoc. by rewrite decide_True. Qed.

Lemma age_snoc_other k ops o :
  op_key o ≠ k → age k (ops ++ [o]) = S <$> age k ops.
Proof. intros. rewrite age_snoc. by rewrite decide_False. Qed.

Lemma older_irrefl ops k : ¬ older ops k k.
Proof. intros (x & y & Hx & Hy & Hlt). simplify_eq. lia. Qed.

Lemma older_trans ops a b c : older ops a b → older ops b c → older ops a c.
Proof.
  intros (x & y & Hx & Hy & Hlt) (y' & z & Hy' & Hz & Hlt').
  simplify_eq. exists x, z. split_and!; [done|done|lia].
Qed.

Lemma older_snoc_others ops o a b :
  op_key o ≠ a → op_key o ≠ b → older ops a b → older (ops ++ [o]) a b.
Proof.
  intros Ha Hb (x & y & Hx & Hy & Hlt). exists (S x), (S y).
  rewrite !age_snoc_other, Hx, Hy by done. split_and!; [done|done|lia].
Qed.

Lemma older_snoc_touch ops o a :
  op_key o ≠ a → is_Some (age a ops) → older (ops ++ [o]) a (op_key o).
Proof.
  intros Ha [x Hx]. exists (S x), 0%nat.
  rewrite age_snoc_touch, age_snoc_other, Hx by done. split_and!; [done|done|lia].
Qed.

Lemma by_recency_nil ops : by_recency ops [].
Proof. split; constructor. Qed.

Lemma by_recency_tail ops h t : by_recency ops (h :: t) → by_recency ops t.
Proof.
  intros [[_ Hs]%StronglySorted_cons [_ Hf]%Forall_cons]. by split.
Qed.


(** After a call that touches [k], the other keys keep their order. *)
Lemma by_recency_others ops o l :
  by_recency ops l → by_recency (ops ++ [o]) (filter (λ e, e ≠ op_key o) l).
Proof.
  induction l as [|x l IH]; intros [Hs Hf]; [apply by_recency_nil|].
  apply StronglySorted_cons in Hs as [Hx Hs]. apply Forall_cons in Hf as [Hax Hf].
  destruct (IH (conj Hs Hf)) as [IHs IHf].
  destruct (decide (x = op_key o)) as [->|Hne].
  - rewrite filter_cons_False by naive_solver. by split.
  - rewrite filter_cons_True by done. split.
    + apply StronglySorted_cons. split; [|done].
      apply Forall_forall. intros y [Hy Hyl]%list_elem_of_filter.
      rewrite Forall_forall in Hx. apply older_snoc_others; auto.
    + apply Forall_cons. split; [|done].
      rewrite age_snoc_other by done. destruct Hax as [n ->]. by eexists.
Qed.

(** A call that touches [k] makes [k] the most recently touched key. *)
Lemma by_recency_promote ops o l :
  by_recency ops l → by_recency (ops ++ [o]) (promote (op_key o) l).
Proof.
  intros Hl. pose proof (by_recency_others ops o l Hl) as [Hs Hf].
  destruct Hl as [_ Hfl]. unfold promote. split.
  - apply StronglySorted_app. split_and!; [|done|repeat constructor].
    intros x y [Hx Hxl]%list_elem_of_filter ->%list_elem_of_singleton.
    rewrite Forall_forall in Hfl. apply older_snoc_touch; auto.
  - apply Forall_app. split; [done|].
    apply Forall_singleton. rewrite age_snoc_touch. by eexists.
Qed.

Lemma by_recency_miss ops o l :
  op_key o ∉ l → by_recency ops l → by_recency (ops ++ [o]) l.
Proof.
  intros Hk Hl. rewrite <-(filter_ne_absent (op_key o) l) by done.
  by apply by_recency_others.
Qed.

Lemma by_recency_append ops o l :
  op_key o ∉ l → by_recency ops l → by_recency (ops ++ [o]) (l ++ [op_key o]).
Proof.
  intros Hk Hl. rewrite <-(filter_ne_absent (op_key o) l) at 1 by done.
  by apply by_recency_promote.
Qed.

End recency.

(** ** Calls on a well-formed LRU cache *)

Section lru_run.
Context {Key : Type} `{Countable Key} {Val : Type} (zero : Val).
Implicit Types (c : LRU.lruCache Key Val) (k : Key) (v : Val).
Implicit Types (ops hist : list (op Key Val)) (o : op Key Val).

Lemma lru_inv_absent c k : lru_inv c → LRU.store c !! k = None → k ∉ LRU.order c.
Proof. intros Hinv E Hk. apply Hinv in Hk as [? ?]. congruence. Qed.

Lemma lru_inv_present c k v : lru_inv c → LRU.store c !! k = Some v → k ∈ LRU.order c.
Proof. intros Hinv E. apply Hinv. eauto. Qed.

(** One call keeps the invariant and the recency order. *)
Lemma lru_exec_step c hist o :
  lru_inv c → by_recency hist (LRU.order c) →
  ∃ c', LRU.exec zero o c = Ok tt c'
        ∧ lru_inv c'
        ∧ by_recency (hist ++ [o]) (LRU.order c')
        ∧ LRU.capacity c' = LRU.capacity c.
Proof.
  intros Hinv Hrec. destruct o as [k|k v]; simpl.
  - destruct (LRU.store c !! k) as [v|] eqn:E.
    + destruct (lru_inv_Get_hit zero c k v Hinv E) as [HGet Hinv'].
      eexists. split; [by erewrite bind_Ok by exact HGet|].
      split_and!; [done| |done]. by apply (by_recency_promote hist (OpGet k)).
    + exists c. split.
      { by erewrite bind_Ok by (apply LRU_Get_miss; [apply Hinv|done]). }
      split_and!; [done| |done].
      apply (by_recency_miss hist (OpGet k)); [|done]. by apply lru_inv_absent.
  - destruct (LRU.store c !! k) as [v0|] eqn:E.
    + destruct (lru_inv_Put_present c k v v0 Hinv E) as [HPut Hinv'].
      eexists. split; [exact HPut|]. split_and!; [done| |done].
      by apply (by_recency_promote hist (OpPut k v)).
    + pose proof (lru_inv_absent c k Hinv E) as Hk.
      destruct (decide (Z.of_nat (size (LRU.store c)) = LRU.capacity c)) as [Hfull|Hroom].
      * destruct (lru_inv_full_order c Hinv Hfull) as (h & t & Ho).
        destruct (lru_inv_Put_absent_full c k v h t Hinv E Hfull Ho)
          as (HPut & _ & _ & Hinv').
        eexists. split; [exact HPut|]. split_and!; [done| |done]. simpl.
        rewrite Ho in Hk, Hrec. apply not_elem_of_cons in Hk as [_ Hk].
        apply (by_recency_append hist (OpPut k v)); [done|].
        by eapply by_recency_tail.
      * destruct (lru_inv_Put_absent_room c k v Hinv E Hroom) as [HPut Hinv'].
        eexists. split; [exact HPut|]. split_and!; [done| |done].
        by apply (by_recency_append hist (OpPut k v)).
Qed.

Lemma lru_run_steps ops c hist :
  lru_inv c → by_recency hist (LRU.order c) →
  ∃ c', LRU.run zero ops c = Ok tt c'
        ∧ lru_inv c'
        ∧ by_recency (hist ++ ops) (LRU.order c')
        ∧ LRU.capacity c' = LRU.capacity c.
Proof.
  revert c hist. induction ops as [|o ops IH]; intros c hist Hinv Hrec.
  - exists c. by rewrite (right_id_L [] (++)).
  - destruct (lru_exec_step c hist o Hinv Hrec) as (c1 & Hexec & Hinv1 & Hrec1 & Hcap1).
    destruct (IH c1 (hist ++ [o]) Hinv1 Hrec1) as (c' & Hrun & Hinv' & Hrec' & Hcap').
    exists c'. simpl. split; [by erewrite bind_Ok by exact Hexec|].
    split_and!; [done| |congruence].
    by rewrite <-(assoc_L (++)) in Hrec'.
Qed.

Lemma NewLRU_ok (cap : Z) c :
  LRU.NewLRU cap = (Some c, None) →
  0 < cap ∧ c = {| LRU.capacity := cap; LRU.store := ∅; LRU.order := []; LRU.mu := false |}.
Proof.
  unfold LRU.NewLRU. destruct (decide (cap <= 0)); intros [= <-]; split; [lia|done].
Qed.

Lemma NewLRU_inv (cap : Z) c : LRU.NewLRU cap = (Some c, None) → lru_inv c.
Proof.
  intros [Hcap ->]%NewLRU_ok. split; simpl; [done|done|constructor| |].
  - intros k. rewrite lookup_empty, elem_of_nil. split; [done|by intros [? ?]].
  - rewrite map_size_empty. lia.
Qed.

(** Every list of calls on a new cache returns, in a well-formed cache whose
    ordering follows the calls. *)
Lemma lru_reach (cap : Z) c0 ops :
  LRU.NewLRU cap = (Some c0, None) →
  ∃ c, LRU.run zero ops c0 = Ok tt c
       ∧ lru_inv c ∧ by_recency ops (LRU.order c) ∧ LRU.capacity c = cap.
Proof.
  intros Hnew. pose proof (NewLRU_inv cap c0 Hnew) as Hinv.
  apply NewLRU_ok in Hnew as [_ Hc0].
  destruct (lru_run_steps ops c0 [] Hinv) as (c & Hrun & Hinv' & Hrec & Hcap).
  { subst c0. apply by_recency_nil. }
  exists c. split_and!; [done|done|done|]. by subst c0.
Qed.

End lru_run.

(** ** The LRU cache: capacity, eviction, replacement *)

Section lru_claims.
Context {Key : Type} `{Countable Key} {Val : Type} (zero : Val).
Implicit Types (c : LRU.lruCache Key Val) (k : Key) (v : Val).
Implicit Types (ops : list (op Key Val)).

(** C8.  Put of a key that is in the cache returns; it stores the new value
    under the key and leaves the other keys and their values alone, it makes
    the key the last (most recently used) key of the ordering and keeps the
    other keys in their order, and the store and the ordering keep their
    sizes: nothing is evicted. *)
Theorem lru_put_existing (cap : Z) c0 ops c k v v0 :
  LRU.NewLRU cap = (Some c0, None) →
  LRU.run zero ops c0 = Ok tt c →
  LRU.store c !! k = Some v0 →
  ∃ c', LRU.Put k v c = Ok tt c'
    ∧ LRU.store c' = <[k := v]> (LRU.store c)
    ∧ LRU.store c' !! k = Some v
    ∧ (∀ j, j ≠ k → LRU.store c' !! j = LRU.store c !! j)
    ∧ dom (LRU.store c') = dom (LRU.store c)
    ∧ size (LRU.store c') = size (LRU.store c)
    ∧ LRU.order c' = filter (λ e, e ≠ k) (LRU.order c) ++ [k]
    ∧ last (LRU.order c') = Some k
    ∧ LRU.order c' ≡ₚ LRU.order c
    ∧ length (LRU.order c') = length (LRU.order c)
    ∧ LRU.capacity c' = LRU.capacity c.
Proof.
  intros Hnew Hrun E.
  destruct (lru_reach zero cap c0 ops Hnew) as (c1 & Hrun1 & Hinv & _ & _).
  assert (c1 = c) as -> by congruence.
  destruct (lru_inv_Put_present c k v v0 Hinv E) as [HPut _].
  pose proof (lru_inv_present c k v0 Hinv E) as Hk.
  eexists. split; [exact HPut|]. simpl. split_and!; try done.
  - apply lookup_insert_eq.
  - intros j Hj. by rewrite lookup_insert_ne.
  - rewrite dom_insert_L. apply elem_of_dom_2 in E. set_solver.
  - apply map_size_insert_Some. eauto.
  - apply last_promote.
  - apply promote_Permutation; [apply Hinv|done].
  - apply length_promote; [apply Hinv|done].
Qed.


End lru_claims.

Lemma lru_put_existing_witness :
  ∃ c', LRU.Put "A" 7 (scenario.lru2 ["A"; "C"] [("A", 1); ("C", 3)]) = Ok tt c'
    ∧ LRU.store c' !! "A" = Some 7
    ∧ last (LRU.order c') = Some "A"
    ∧ size (LRU.store c') = size (LRU.store (scenario.lru2 ["A"; "C"] [("A", 1); ("C", 3)])).
Proof.
  destruct (lru_put_existing 0 2 (scenario.lru 2) scenario.calls
              (scenario.lru2 ["A"; "C"] [("A", 1); ("C", 3)]) "A" 7 1
              eq_refl eq_refl eq_refl)
    as (c' & HPut & _ & Hk & _ & _ & Hsz & _ & Hlast & _).
  exists c'. by split_and!.
Defined.

(** ** The TTL cache of package ttl, call by call *)

Section ttl_calls.
Context {Key : Type} `{Countable Key} {Val : Type} (zero : Val).
Implicit Types (c : TTL.TTLCache Key Val) (k : Key) (v : Val) (now : time.Time).

Lemma Since_ge now t (ttl : time.Duration) :
  0 < ttl → ttl <= time.maxDuration →
  time.Since now t >= ttl ↔ now - t >= ttl.
Proof.
  unfold time.Since, time.Sub, time.maxDuration, time.minDuration.
  intros Hpos Hmax. repeat case_decide; lia.
Qed.

Lemma Since_exact now t :
  time.minDuration <= now - t <= time.maxDuration → time.Since now t = now - t.
Proof.
  unfold time.Since, time.Sub. intros Hr. repeat case_decide; lia.
Qed.

(** The state in which Get stops: the store after the statements of Get. *)
Lemma TTL_Get_fatal c now k :
  TTL.mu c = sync.RWMutex_zero →
  TTL.Get zero now k c =
    Fatal "fatal error: sync: RUnlock of unlocked RWMutex"
      match TTL.storege c !! k with
      | None => c
      | Some e =>
          if decide (time.Since now (TTL.lastVisited e) > TTL.timeToLive c)
          then TTL.set_storege (delete k) c
          else if TTL.resetOnRead c
               then TTL.set_storege (alter (TTL.touch now) k) c
               else c
      end.
Proof.
  destruct c as [st ttl ror m cr cm]; simpl; intros ->.
  unfold TTL.Get, TTL.Get_body, defer, mbind, M_bind, bind; simpl.
  destruct (st !! k) as [e|]; simpl; [|done].
  destruct (decide _); simpl; [done|].
  by destruct ror.
Qed.

(** What the statements of Get hand to its return, from the state in which
    the read lock of line 47 is held. *)
Lemma TTL_Get_body_fresh c now k e :
  TTL.mu c = sync.RWMutex_zero →
  TTL.storege c !! k = Some e →
  ¬ time.Since now (TTL.lastVisited e) > TTL.timeToLive c →
  TTL.Get_body zero now k (TTL.set_mu {| sync.readers := 1; sync.writer := false |} c) =
    Ok (TTL.val e, true)
      (if TTL.resetOnRead c
       then TTL.set_storege (alter (TTL.touch now) k) c
       else c).
Proof.
  destruct c as [st ttl ror m cr cm]; simpl; intros -> E Hfresh.
  unfold TTL.Get_body, defer, mbind, M_bind, bind; simpl. rewrite E; simpl.
  rewrite decide_False by done. by destruct ror.
Qed.

Lemma TTL_Put_ok c now k v :
  TTL.mu c = sync.RWMutex_zero →
  TTL.Put now k v c =
    Ok tt (TTL.set_storege (<[k := {| TTL.val := v; TTL.lastVisited := now |}]>) c).
Proof.
  destruct c as [st ttl ror m cr cm]; simpl; intros ->.
  unfold TTL.Put, defer, mbind, M_bind, bind; simpl.
  destruct (st !! k) as [e|] eqn:E; simpl; [|done].
  unfold ret, TTL.set_mu, sync.RWMutex_zero; simpl.
  apply (f_equal (Ok tt)).
  apply (f_equal (λ m, TTL.Build_TTLCache m ttl ror _ cr cm)).
  apply map_eq. intros j. destruct (decide (j = k)) as [->|Hne].
  - by rewrite lookup_insert_eq, !lookup_alter_eq, E.
  - by rewrite lookup_insert_ne, !lookup_alter_ne.
Qed.

Lemma TTL_Size_ok c :
  TTL.mu c = sync.RWMutex_zero →
  TTL.Size c = Ok (Z.of_nat (size (TTL.storege c))) c.
Proof. destruct c as [st ttl ror m cr cm]; simpl; intros ->. done. Qed.

(** The loop of Cleanup: of the entries it visits, it deletes those it finds
    old, from whatever map it is deleting from. *)
Lemma sweep_fold_lookup now (ttl : time.Duration) (acc m : gmap Key (TTL.cacheEntry Val)) k :
  map_fold (TTL.sweep now ttl) acc m !! k =
    match m !! k with
    | Some e => if decide (time.Since now (TTL.lastVisited e) >= ttl) then None else acc !! k
    | None => acc !! k
    end.
Proof.
  revert k. apply (map_fold_weak_ind (λ r m, ∀ k, r !! k = match m !! k with
    | Some e => if decide (time.Since now (TTL.lastVisited e) >= ttl) then None else acc !! k
    | None => acc !! k end)).
  - intros k. by rewrite lookup_empty.
  - intros i x m' r Hi IH k. unfold TTL.sweep.
    destruct (decide (k = i)) as [->|Hne].
    + rewrite lookup_insert_eq. case_decide.
      * by rewrite lookup_delete_eq.
      * by rewrite IH, Hi.
    + rewrite lookup_insert_ne by done. case_decide.
      * by rewrite lookup_delete_ne, IH.
      * by rewrite IH.
Qed.

Lemma TTL_Cleanup_ok c now :
  TTL.mu c = sync.RWMutex_zero →
  TTL.Cleanup now c =
    Ok tt (TTL.set_storege
             (λ m, map_fold (TTL.sweep now (TTL.timeToLive c)) m m) c).
Proof. destruct c as [st ttl ror m cr cm]; simpl; intros ->. done. Qed.

End ttl_calls.

(** ** The TTL cache: Cleanup, Get *)

Section ttl_claims.
Context {Key : Type} `{Countable Key} {Val : Type} (zero : Val).
Implicit Types (c : TTL.TTLCache Key Val) (k : Key) (v : Val) (now : time.Time).

Lemma NewTTL_ok (ttl : time.Duration) (ror : bool) c :
  TTL.NewTTL ttl ror = (Some c, None) →
  0 < ttl
  ∧ c = {| TTL.storege := ∅; TTL.timeToLive := ttl; TTL.resetOnRead := ror;
           TTL.mu := sync.RWMutex_zero; TTL.cleanupRunning := false;
           TTL.cleanupMu := false |}.
Proof.
  unfold TTL.NewTTL. destruct (decide (ttl <= 0)); intros [= <-]; split; [lia|done].
Qed.

Lemma NewTTL_inv (ttl : time.Duration) (ror : bool) c :
  ttl <= time.maxDuration → TTL.NewTTL ttl ror = (Some c, None) → ttl_inv c.
Proof. intros Hmax [Hpos ->]%NewTTL_ok. by split. Qed.

Lemma ttl_inv_set_storege c f : ttl_inv c → ttl_inv (TTL.set_storege f c).
Proof. intros [? ? ? ?]. by split. Qed.

(** C2.  Get of package ttl never returns: called on a cache whose lock is
    free, it runs its deferred RUnlock (line 48) after the read lock has
    been released, by the explicit RUnlock of lines 52 and 58 or by the
    RUnlock deferred on line 78, and the runtime stops the process. *)
Theorem ttl_get_is_fatal c now k :
  TTL.mu c = sync.RWMutex_zero →
  returned (TTL.Get zero now k c) = None
  ∧ ∃ s, TTL.Get zero now k c =
           Fatal "fatal error: sync: RUnlock of unlocked RWMutex" s.
Proof.
  intros Hmu. rewrite TTL_Get_fatal by done. split; [done|eauto].
Qed.

(** With resetOnRead, the statements of Get do set the time of the entry to
    [now] before the process stops. *)
Lemma ttl_get_refreshes c now k e :
  TTL.mu c = sync.RWMutex_zero →
  TTL.resetOnRead c = true →
  TTL.storege c !! k = Some e →
  ¬ time.Since now (TTL.lastVisited e) > TTL.timeToLive c →
  TTL.storege (final (TTL.Get zero now k c)) !! k
  = Some {| TTL.val := TTL.val e; TTL.lastVisited := now |}.
Proof.
  intros Hmu Hror E Hfresh. rewrite TTL_Get_fatal by done. rewrite E, Hror.
  rewrite decide_False by done. simpl. by rewrite lookup_alter_eq, E.
Qed.

End ttl_claims.

Lemma ttl_get_is_fatal_witness :
  TTL.NewTTL time.Second false = (Some (scenario.ttl time.Second false []), None)
  ∧ returned (TTL.Get 0 0 "A" (scenario.ttl time.Second false [])) = None.
Proof.
  split; [reflexivity|].
  exact (proj1 (ttl_get_is_fatal 0 (scenario.ttl time.Second false []) 0 "A" eq_refl)).
Defined.

(** C1.  TTL = 100ms, Put(A,1) at t = 0, Get(A) at t = 100ms: the entry is
    expired (now - lastVisited >= ttl), yet the test of Get (line 57) is
    [>]: its statements find the entry, keep it in the store and hand
    (1, true) to the return, and then the deferred RUnlock stops the process.
    Cleanup at the same instant removes the entry.  The Get of the first
    TTL cache (package cache) has no test at all: at t = 150ms it returns
    (1, true). *)
Theorem ttl_get_at_ttl_keeps_entry :
  let c0 := scenario.ttl (scenario.ms 100) false [] in
  let c := scenario.ttl (scenario.ms 100) false [("A", scenario.entry 1 0)] in
  let c1 := scenario.ttl1 (scenario.ms 100) false [("A", scenario.entry1 "A" 1 0)] in
  TTL.NewTTL (scenario.ms 100) false = (Some c0, None)
  ∧ TTL.Put 0 "A" 1 c0 = Ok tt c
  ∧ scenario.ms 100 - TTL.lastVisited (scenario.entry 1 0) >= TTL.timeToLive c
  ∧ TTL.Get_body 0 (scenario.ms 100) "A" (scenario.rlocked c) = Ok (1, true) c
  ∧ TTL.Get 0 (scenario.ms 100) "A" c =
      Fatal "fatal error: sync: RUnlock of unlocked RWMutex" c
  ∧ TTL.storege c !! "A" = Some (scenario.entry 1 0)
  ∧ TTL.Cleanup (scenario.ms 100) c = Ok tt c0
  ∧ TTL_cache.Get 0 (scenario.ms 150) "A" c1 = Ok (1, true) c1.
Proof. cbv zeta. split_and!; by vm_compute. Qed.

(** C7.  TTL = 100ms with resetOnRead, Put(A,1) at t = 0, Get(A) at
    t = 50ms: the statements of Get set the time of the entry to 50ms and
    hand (1, true) to the return, and so would they at t = 130ms on the
    refreshed entry; but the Get at t = 50ms stops the process in its
    deferred RUnlock, and so does every later Get.  The Get of the first TTL
    cache (package cache) does return (1, true), at 50ms and at 130ms. *)
Theorem ttl_get_resets_then_stops :
  let c := scenario.ttl (scenario.ms 100) true [("A", scenario.entry 1 0)] in
  let c50 := scenario.ttl (scenario.ms 100) true [("A", scenario.entry 1 (scenario.ms 50))] in
  let c130 := scenario.ttl (scenario.ms 100) true [("A", scenario.entry 1 (scenario.ms 130))] in
  let d := scenario.ttl1 (scenario.ms 100) true [("A", scenario.entry1 "A" 1 0)] in
  let d50 := scenario.ttl1 (scenario.ms 100) true
               [("A", scenario.entry1 "A" 1 (scenario.ms 50))] in
  let d130 := scenario.ttl1 (scenario.ms 100) true
                [("A", scenario.entry1 "A" 1 (scenario.ms 130))] in
  TTL.NewTTL (scenario.ms 100) true = (Some (scenario.ttl (scenario.ms 100) true []), None)
  ∧ TTL.Put 0 "A" 1 (scenario.ttl (scenario.ms 100) true []) = Ok tt c
  ∧ TTL.Get_body 0 (scenario.ms 50) "A" (scenario.rlocked c) = Ok (1, true) c50
  ∧ TTL.Get 0 (scenario.ms 50) "A" c =
      Fatal "fatal error: sync: RUnlock of unlocked RWMutex" c50
  ∧ TTL.Get_body 0 (scenario.ms 130) "A" (scenario.rlocked c50) = Ok (1, true) c130
  ∧ TTL.Get 0 (scenario.ms 130) "A" c50 =
      Fatal "fatal error: sync: RUnlock of unlocked RWMutex" c130
  ∧ TTL_cache.Get 0 (scenario.ms 50) "A" d = Ok (1, true) d50
  ∧ TTL_cache.Get 0 (scenario.ms 130) "A" d50 = Ok (1, true) d130.
Proof. cbv zeta. split_and!; by vm_compute. Qed.

(** ** ScheduleCleanup and its goroutine *)

Section ttl_schedule.
Context {Key : Type} `{Countable Key} {Val : Type} (zero : Val).
Implicit Types (p : process (TTL.TTLCache Key Val)) (g : goroutine).

Lemma on_cache_Ok {A} (m : M (TTL.TTLCache Key Val) A) p a c :
  m (cache p) = Ok a c → on_cache m p = Ok a (set_cache c p).
Proof. intros E. unfold on_cache. by rewrite E. Qed.

Lemma on_cache_Fatal {A} (m : M (TTL.TTLCache Key Val) A) p msg c :
  m (cache p) = Fatal msg c → on_cache m p = Fatal msg (set_cache c p).
Proof. intros E. unfold on_cache. by rewrite E. Qed.

Lemma ScheduleCleanup_running p cx e :
  TTL.cleanupMu (cache p) = false →
  TTL.cleanupRunning (cache p) = true →
  TTL.ScheduleCleanup cx e p = Ok tt p.
Proof.
  destruct p as [[st ttl ror m cr cm] rs cs]; simpl; intros -> ->. done.
Qed.

Lemma ScheduleCleanup_idle p cx e :
  TTL.cleanupMu (cache p) = false →
  TTL.cleanupRunning (cache p) = false →
  TTL.ScheduleCleanup cx e p =
    Ok tt (set_routines (λ rs, rs ++ [{| ctx := cx; every := e; at_phase := Starting |}])
             (set_cache (TTL.set_cleanupRunning true (cache p)) p)).
Proof.
  destruct p as [[st ttl ror m cr cm] rs cs]; simpl; intros -> ->. done.
Qed.

Lemma sched_inv_boot (c : TTL.TTLCache Key Val) (ttl : time.Duration) ror :
  TTL.NewTTL ttl ror = (Some c, None) → sched_inv (TTL.boot c).
Proof. intros [_ ->]%NewTTL_ok. by split_and!. Qed.

(** An event that does not stop the process keeps the invariant. *)
Lemma sched_inv_happen p ev p' :
  sched_inv p → TTL.happen zero ev p = Ok tt p' → sched_inv p'.
Proof.
  intros (Hmu & Hcm & Hone) Hev. destruct ev as [now k|now k v| |now|cx e|cx|now sel i]; simpl in Hev.
  - unfold mbind, M_bind, bind in Hev.
    rewrite (on_cache_Fatal _ _ _ _ (TTL_Get_fatal zero (cache p) now k Hmu)) in Hev. done.
  - rewrite (on_cache_Ok _ _ _ _ (TTL_Put_ok (cache p) now k v Hmu)) in Hev.
    injection Hev as <-. by split_and!.
  - unfold mbind, M_bind, bind in Hev.
    rewrite (on_cache_Ok _ _ _ _ (TTL_Size_ok (cache p) Hmu)) in Hev.
    injection Hev as <-. by split_and!.
  - rewrite (on_cache_Ok _ _ _ _ (TTL_Cleanup_ok (cache p) now Hmu)) in Hev.
    injection Hev as <-. by split_and!.
  - destruct (TTL.cleanupRunning (cache p)) eqn:Hr.
    + rewrite ScheduleCleanup_running in Hev by done. injection Hev as <-. by split_and!.
    + rewrite ScheduleCleanup_idle in Hev by done. injection Hev as <-.
      split_and!; [done|done|]. unfold one_routine in *; simpl.
      destruct (routines p) as [|g [|g' rs]]; [done|congruence|done].
  - injection Hev as <-. by split_and!.
  - destruct p as [[st ttl ror m cr cm] rs cs]; simpl in *. subst m cm.
    unfold one_routine in Hone; simpl in Hone.
    destruct rs as [|g [|g' rs]]; [|subst cr|done].
    + unfold TTL.routine_step, mbind, M_bind, bind in Hev; simpl in Hev.
      destruct i; simpl in Hev; injection Hev as <-; by split_and!.
    + destruct i as [|i].
      * destruct g as [cx e [| |]];
          unfold TTL.routine_step, mbind, M_bind, bind in Hev; simpl in Hev.
        -- destruct (decide (e <= 0)); [done|]. injection Hev as <-. by split_and!.
        -- destruct sel.
           ++ injection Hev as <-. by split_and!.
           ++ destruct (decide (cx ∈ cs)); injection Hev as <-; by split_and!.
        -- injection Hev as <-. by split_and!.
      * unfold TTL.routine_step, mbind, M_bind, bind in Hev; simpl in Hev.
        injection Hev as <-. by split_and!.
Qed.

Lemma reachable_sched_inv p : reachable zero p → sched_inv p.
Proof.
  induction 1 as [ttl ror c Hmax Hnew|p ev p' _ IH Hev].
  - by eapply sched_inv_boot.
  - by eapply sched_inv_happen.
Qed.


End ttl_schedule.

Section ttl_schedule_claim.
Context {Key : Type} `{Countable Key} {Val : Type} (zero : Val).
Implicit Types (p : process (TTL.TTLCache Key Val)) (g : goroutine).


(** The ScheduleCleanup of the first TTL cache (package cache) has no such
    flag: two calls start two goroutines. *)
Lemma ttl1_schedule_twice (c : TTL_cache.TTLCache Key Val) cx e cx' e' :
  ∃ q : process (TTL_cache.TTLCache Key Val),
    (TTL_cache.ScheduleCleanup cx e ;; TTL_cache.ScheduleCleanup cx' e')
      (TTL_cache.boot c) = Ok tt q
    ∧ length (routines q) = 2%nat.
Proof. eexists. split; reflexivity. Qed.

End ttl_schedule_claim.


(** ** The constructors *)

(** C9.  NewLRU(cap) returns an error exactly when cap <= 0, and NewTTL(ttl,
    ror) exactly when ttl <= 0; with the error comes no cache (nil), and
    without it comes the empty cache of that capacity, or of that time to
    live and that flag.  The constructors of the slice-based LRU cache and of
    the first TTL cache do the same. *)
Theorem constructors_reject_non_positive
    (Key : Type) `{Countable Key} (Val : Type)
    (cap : Z) (ttl : time.Duration) (ror : bool) :
  ((snd (LRU.NewLRU (Key := Key) (Val := Val) cap) ≠ None ↔ cap <= 0)
   ∧ (snd (LRU.NewLRU (Key := Key) (Val := Val) cap) ≠ None →
        fst (LRU.NewLRU (Key := Key) (Val := Val) cap) = None)
   ∧ (snd (LRU.NewLRU (Key := Key) (Val := Val) cap) = None →
        fst (LRU.NewLRU (Key := Key) (Val := Val) cap)
        = Some {| LRU.capacity := cap; LRU.store := ∅; LRU.order := [];
                  LRU.mu := false |}))
  ∧ ((snd (TTL.NewTTL (Key := Key) (Val := Val) ttl ror) ≠ None ↔ ttl <= 0)
     ∧ (snd (TTL.NewTTL (Key := Key) (Val := Val) ttl ror) ≠ None →
          fst (TTL.NewTTL (Key := Key) (Val := Val) ttl ror) = None)
     ∧ (snd (TTL.NewTTL (Key := Key) (Val := Val) ttl ror) = None →
          fst (TTL.NewTTL (Key := Key) (Val := Val) ttl ror)
          = Some {| TTL.storege := ∅; TTL.timeToLive := ttl; TTL.resetOnRead := ror;
                    TTL.mu := sync.RWMutex_zero; TTL.cleanupRunning := false;
                    TTL.cleanupMu := false |}))
  ∧ ((snd (LRU_slice.NewLRU (Key := Key) (Val := Val) cap) ≠ None ↔ cap <= 0)
     ∧ (snd (LRU_slice.NewLRU (Key := Key) (Val := Val) cap) ≠ None →
          fst (LRU_slice.NewLRU (Key := Key) (Val := Val) cap) = None)
     ∧ (snd (LRU_slice.NewLRU (Key := Key) (Val := Val) cap) = None →
          fst (LRU_slice.NewLRU (Key := Key) (Val := Val) cap)
          = Some {| LRU_slice.capacity := cap; LRU_slice.store := ∅;
                    LRU_slice.order := []; LRU_slice.mu := false |}))
  ∧ ((snd (TTL_cache.NewTTL (Key := Key) (Val := Val) ttl ror) ≠ None ↔ ttl <= 0)
     ∧ (snd (TTL_cache.NewTTL (Key := Key) (Val := Val) ttl ror) ≠ None →
          fst (TTL_cache.NewTTL (Key := Key) (Val := Val) ttl ror) = None)
     ∧ (snd (TTL_cache.NewTTL (Key := Key) (Val := Val) ttl ror) = None →
          fst (TTL_cache.NewTTL (Key := Key) (Val := Val) ttl ror)
          = Some {| TTL_cache.store := ∅; TTL_cache.timeToLive := ttl;
                    TTL_cache.resetOnAccess := ror; TTL_cache.mu := false |})).
Proof.
  unfold LRU.NewLRU, TTL.NewTTL, LRU_slice.NewLRU, TTL_cache.NewTTL.
  split_and!; repeat case_decide; simpl; try done; try (split; [lia|done]);
    try (split; [done|lia]).
Qed.

(** ** The cost of recentify *)

Section lru_cost.
Context {Key : Type} `{Countable Key} {Val : Type} (zero : Val).
Implicit Types (c : LRU.lruCache Key Val) (k : Key) (v : Val).
Implicit Types (ops : list (op Key Val)).

Lemma LRU_run_app_Ok ops1 ops2 c c1 :
  LRU.run zero ops1 c = Ok tt c1 →
  LRU.run zero (ops1 ++ ops2) c = LRU.run zero ops2 c1.
Proof.
  revert c. induction ops1 as [|o ops1 IH]; intros c; simpl.
  - by intros [= ->].
  - unfold mbind, M_bind, bind. destruct (LRU.exec zero o c) as [[] c'| |]; [|done|done].
    apply IH.
Qed.

Lemma LRU_run_comparisons_app ops1 ops2 c c1 :
  LRU.run zero ops1 c = Ok tt c1 →
  LRU.run_comparisons zero (ops1 ++ ops2) c
  = (LRU.run_comparisons zero ops1 c + LRU.run_comparisons zero ops2 c1)%nat.
Proof.
  revert c. induction ops1 as [|o ops1 IH]; intros c; simpl.
  - by intros [= ->].
  - unfold mbind, M_bind, bind. destruct (LRU.exec zero o c) as [[] c'| |]; [|done|done].
    intros Hrun. rewrite (IH c' Hrun). lia.
Qed.

(** IndexOf compares the key with every key before it and with itself. *)
Lemma IndexOf_comparisons_position (l1 l2 : list Key) k :
  k ∉ l1 → dll.IndexOf_comparisons (l1 ++ k :: l2) k = S (length l1).
Proof.
  intros Hk. unfold dll.IndexOf_comparisons. by rewrite IndexOf_scan_present.
Qed.

Lemma IndexOf_comparisons_absent (l : list Key) k :
  k ∉ l → dll.IndexOf_comparisons l k = length l.
Proof.
  intros Hk. unfold dll.IndexOf_comparisons. by rewrite IndexOf_scan_absent.
Qed.

Lemma promote_last (l : list Key) k : k ∉ l → promote k (l ++ [k]) = l ++ [k].
Proof.
  intros Hk. unfold promote.
  rewrite filter_app, filter_cons_False, filter_nil by naive_solver.
  by rewrite filter_ne_absent, (right_id_L [] (++)).
Qed.

(** Get of the most recently used key: the ordering is scanned to its end
    and the cache is left as it was. *)
Lemma lru_Get_last c l k :
  lru_inv c → LRU.order c = l ++ [k] →
  LRU.exec zero (OpGet k) c = Ok tt c
  ∧ LRU.exec_comparisons (OpGet k) c = length (LRU.order c).
Proof.
  intros Hinv Ho.
  assert (k ∉ l) as Hk.
  { pose proof (inv_nodup c Hinv) as Hnd. rewrite Ho in Hnd.
    apply NoDup_app in Hnd as (_ & Hd & _). intros Hin. apply (Hd _ Hin). left. }
  assert (is_Some (LRU.store c !! k)) as [v E].
  { apply Hinv. rewrite Ho. apply elem_of_app. right. left. }
  destruct (lru_inv_Get_hit zero c k v Hinv E) as [HGet _]. split.
  - simpl. erewrite bind_Ok by exact HGet.
    unfold ret. f_equal. destruct c as [cap st o m]; simpl in *. subst o.
    unfold LRU.set_order; simpl. by rewrite promote_last.
  - unfold LRU.exec_comparisons, LRU.recentify_comparisons. simpl. rewrite E, Ho.
    rewrite IndexOf_comparisons_position by done. rewrite length_app. simpl. lia.
Qed.

Lemma lru_reread_comparisons c l k (m : nat) :
  lru_inv c → LRU.order c = l ++ [k] →
  LRU.run_comparisons zero (replicate m (OpGet k)) c = (m * length (LRU.order c))%nat.
Proof.
  intros Hinv Ho. destruct (lru_Get_last c l k Hinv Ho) as [Hexec Hcmp].
  induction m as [|m IH]; [done|].
  cbn [replicate LRU.run_comparisons]. rewrite Hexec, Hcmp, IH. lia.
Qed.

End lru_cost.

(** Filling a cache of capacity [n] with the keys 0, ..., n-1. *)
Lemma lru_fill (n m : nat) (c0 : LRU.lruCache nat Z) :
  (m <= n)%nat →
  LRU.NewLRU (Z.of_nat n) = (Some c0, None) →
  ∃ c, LRU.run 0 (scenario.fill m) c0 = Ok tt c
    ∧ lru_inv c ∧ LRU.order c = seq 0 m ∧ LRU.capacity c = Z.of_nat n.
Proof.
  intros Hm Hnew. induction m as [|m IH].
  - exists c0. split_and!; [done|by eapply NewLRU_inv| |];
      apply NewLRU_ok in Hnew as [_ ->]; done.
  - destruct IH as (c & Hrun & Hinv & Ho & Hcap); [lia|].
    assert (LRU.store c !! m = None) as E.
    { destruct (LRU.store c !! m) eqn:E; [|done].
      assert (m ∈ LRU.order c) as Hin by (apply Hinv; eauto).
      rewrite Ho in Hin. apply elem_of_seq in Hin. lia. }
    assert (Z.of_nat (size (LRU.store c)) ≠ LRU.capacity c) as Hroom.
    { rewrite <-(lru_inv_length c Hinv), Ho, length_seq. lia. }
    destruct (lru_inv_Put_absent_room c m 0 Hinv E Hroom) as [HPut Hinv'].
    eexists. unfold scenario.fill. rewrite seq_S, fmap_app. simpl.
    split; [|split_and!; [exact Hinv'| |done]].
    + rewrite (LRU_run_app_Ok 0 _ _ c0 c) by exact Hrun. simpl.
      by erewrite bind_Ok by exact HPut.
    + simpl. by rewrite Ho.
Qed.

Lemma DeleteFunc_calls_length {A} (del : A → bool) (s : list A) :
  slices.DeleteFunc_calls s del = length s.
Proof.
  unfold slices.DeleteFunc_calls. induction s as [|x s IH]; [done|]. simpl.
  destruct (slices.DeleteFunc_scan del s) as [r n]. simpl in *. by rewrite IH.
Qed.

(** For every bound [B] there are calls on a new cache during which
    recentify makes more than [B] comparisons per call. *)
Lemma lru_costly_calls (B : nat) :
  ∃ (cap : Z) (c0 : LRU.lruCache nat Z) (ops : list (op nat Z)),
    LRU.NewLRU cap = (Some c0, None)
    ∧ (B * length ops < LRU.run_comparisons 0%Z ops c0)%nat.
Proof.
  set (n := S (2 * B)).
  set (c0 := {| LRU.capacity := Z.of_nat n; LRU.store := ∅; LRU.order := [];
                LRU.mu := false |} : LRU.lruCache nat Z).
  assert (LRU.NewLRU (Z.of_nat n) = (Some c0, None)) as Hnew.
  { unfold LRU.NewLRU. rewrite decide_False by lia. done. }
  destruct (lru_fill n n _ (le_n n) Hnew) as (c & Hrun & Hinv & Ho & _).
  exists (Z.of_nat n), c0, (scenario.fill n ++ scenario.reread n).
  split; [done|].
  rewrite (LRU_run_comparisons_app 0 _ _ _ c Hrun).
  assert (LRU.order c = seq 0 (2 * B) ++ [pred n]) as Ho'.
  { rewrite Ho. unfold n. by rewrite seq_S. }
  unfold scenario.reread. rewrite (lru_reread_comparisons 0 c _ _ n Hinv Ho').
  rewrite Ho, length_seq, length_app, length_replicate.
  unfold scenario.fill. rewrite length_fmap, length_seq. unfold n. nia.
Qed.

(** C10, as the claim has it, fails: no constant bounds the comparisons that
    recentify makes per call, over the lists of calls on a new cache. *)
Lemma lru_recentify_not_constant_amortized :
  ¬ ∃ B : nat,
      ∀ (cap : Z) (c0 : LRU.lruCache nat Z) (ops : list (op nat Z)),
        LRU.NewLRU cap = (Some c0, None) →
        (LRU.run_comparisons 0%Z ops c0 <= B * length ops)%nat.
Proof.
  intros [B HB]. destruct (lru_costly_calls B) as (cap & c0 & ops & Hnew & Hlt).
  specialize (HB cap c0 ops Hnew). lia.
Qed.

Section lru_cost_claim.
Context {Key : Type} `{Countable Key} {Val : Type} (zero : Val).
Implicit Types (c : LRU.lruCache Key Val) (k : Key) (v : Val).

(** C10, amended.  In a cache reached from NewLRU, recentify finds the key
    by a scan of the ordering from its head: for the key at position i it
    makes i + 1 comparisons, in a Get as in a Put of that key, and for the
    most recently used key as many as there are keys in the cache.  In the
    slice-based cache recentify tests every key of the ordering.  The
    comparisons per call are not bounded by a constant. *)
Theorem lru_recentify_scans_ordering (cap : Z) c0 ops c k l1 l2 :
  LRU.NewLRU cap = (Some c0, None) →
  LRU.run zero ops c0 = Ok tt c →
  LRU.order c = l1 ++ k :: l2 →
  LRU.recentify_comparisons k c = S (length l1)
  ∧ LRU.exec_comparisons (OpGet k) c = S (length l1)
  ∧ (∀ v, LRU.exec_comparisons (OpPut k v) c = S (length l1))
  ∧ (l2 = [] → LRU.recentify_comparisons k c = size (LRU.store c))
  ∧ (∀ (c' : LRU_slice.lruCache Key Val) k',
       LRU_slice.recentify_comparisons k' c' = length (LRU_slice.order c'))
  ∧ (∀ B : nat,
       ∃ (n : Z) (d0 : LRU.lruCache nat Z) (calls : list (op nat Z)),
         LRU.NewLRU n = (Some d0, None)
         ∧ (B * length calls < LRU.run_comparisons 0%Z calls d0)%nat).
Proof.
  intros Hnew Hrun Ho.
  destruct (lru_reach zero cap c0 ops Hnew) as (c1 & Hrun1 & Hinv & _ & _).
  assert (c1 = c) as -> by congruence.
  assert (k ∉ l1) as Hk.
  { pose proof (inv_nodup c Hinv) as Hnd. rewrite Ho in Hnd.
    apply NoDup_app in Hnd as (_ & Hd & _). intros Hin. apply (Hd _ Hin). left. }
  assert (is_Some (LRU.store c !! k)) as [v0 E].
  { apply Hinv. rewrite Ho. apply elem_of_app. right. left. }
  assert (LRU.recentify_comparisons k c = S (length l1)) as Hcmp.
  { unfold LRU.recentify_comparisons. rewrite Ho. by apply IndexOf_comparisons_position. }
  split_and!; [done| | | | |].
  - unfold LRU.exec_comparisons. simpl. by rewrite E.
  - intros v. unfold LRU.exec_comparisons. simpl. by rewrite E.
  - intros ->. rewrite Hcmp, <-(lru_inv_length c Hinv), Ho, length_app. simpl. lia.
  - intros c' k'. apply DeleteFunc_calls_length.
  - apply lru_costly_calls.
Qed.

End lru_cost_claim.

Lemma lru_recentify_scans_ordering_witness :
  LRU.recentify_comparisons "C" (scenario.lru2 ["A"; "C"] [("A", 1); ("C", 3)]) = 2%nat.
Proof.
  exact (proj1 (lru_recentify_scans_ordering 0 2 (scenario.lru 2) scenario.calls
                  (scenario.lru2 ["A"; "C"] [("A", 1); ("C", 3)]) "C" ["A"] []
                  eq_refl eq_refl eq_refl)).
Defined.

(** ** The slice-based LRU cache does what the list-based one does *)

Section lru_slice.
Context {Key : Type} `{Countable Key} {Val : Type} (zero : Val).
Implicit Types (c : LRU_slice.lruCache Key Val) (k : Key) (v : Val).
Implicit Types (ops hist : list (op Key Val)) (o : op Key Val).

Lemma DeleteFunc_filter (s : list Key) k :
  slices.DeleteFunc s (λ e, bool_decide (e = k)) = filter (λ e, e ≠ k) s.
Proof.
  unfold slices.DeleteFunc. induction s as [|x s IH]; [done|]. simpl.
  destruct (slices.DeleteFunc_scan _ s) as [r n]. simpl in *. subst r.
  destruct (decide (x = k)) as [->|Hne].
  - rewrite bool_decide_true by done. by rewrite filter_cons_False by naive_solver.
  - rewrite bool_decide_false by done. by rewrite filter_cons_True.
Qed.

(** Running a method of the slice-based cache on an explicit state. *)
Ltac slice_eval :=
  unfold LRU_slice.Put, LRU_slice.Get, LRU_slice.evict, LRU_slice.recentify,
    LRU_slice.mu_Lock, LRU_slice.mu_Unlock, sync.on_lock,
    defer, mbind, M_bind, bind, modify, get, ret,
    LRU_slice.set_order, LRU_slice.set_store, LRU_slice.set_mu;
  simpl.

Lemma slice_exec_simulates c o :
  lru_inv (slice_view c) →
  ∃ c', LRU_slice.exec zero o c = Ok tt c'
        ∧ LRU.exec zero o (slice_view c) = Ok tt (slice_view c').
Proof.
  intros Hinv. pose proof Hinv as [_ Hmu Hnd Hkeys _].
  destruct c as [cap st ord m]; simpl in *. subst m.
  destruct o as [k|k v]; simpl.
  - destruct (st !! k) as [v|] eqn:E.
    + destruct (lru_inv_Get_hit zero _ k v Hinv E) as [HGet _].
      erewrite (bind_Ok (LRU.Get zero k)) by exact HGet.
      slice_eval. rewrite E; simpl. rewrite DeleteFunc_filter.
      eexists. split; reflexivity.
    + erewrite (bind_Ok (LRU.Get zero k)) by (by apply LRU_Get_miss).
      slice_eval. rewrite E; simpl. eexists. split; reflexivity.
  - destruct (st !! k) as [v0|] eqn:E.
    + destruct (lru_inv_Put_present _ k v v0 Hinv E) as [HPut _]. rewrite HPut.
      slice_eval. rewrite E; simpl. rewrite DeleteFunc_filter.
      eexists. split; reflexivity.
    + assert (k ∉ ord) as Hk by (by apply (lru_inv_absent _ k Hinv)).
      destruct (decide (Z.of_nat (size st) = cap)) as [Hfull|Hroom].
      * destruct (lru_inv_full_order _ Hinv Hfull) as (h & t & Ho). simpl in Ho. subst ord.
        destruct (lru_inv_Put_absent_full _ k v h t Hinv E Hfull eq_refl) as (HPut & _).
        rewrite HPut.
        slice_eval. rewrite E; simpl. rewrite decide_True by done. simpl.
        rewrite drop_0, DeleteFunc_filter.
        apply not_elem_of_cons in Hk as [_ Hk]. rewrite filter_ne_absent by done.
        eexists. split; reflexivity.
      * destruct (lru_inv_Put_absent_room _ k v Hinv E Hroom) as [HPut _]. rewrite HPut.
        slice_eval. rewrite E; simpl. rewrite decide_False by done. simpl.
        rewrite DeleteFunc_filter, filter_ne_absent by done.
        eexists. split; reflexivity.
Qed.

Lemma slice_run_simulates ops c hist :
  lru_inv (slice_view c) → by_recency hist (LRU_slice.order c) →
  ∃ c', LRU_slice.run zero ops c = Ok tt c'
        ∧ LRU.run zero ops (slice_view c) = Ok tt (slice_view c')
        ∧ lru_inv (slice_view c').
Proof.
  revert c hist. induction ops as [|o ops IH]; intros c hist Hinv Hrec.
  - by exists c.
  - destruct (slice_exec_simulates c o Hinv) as (c1 & Hs & Hl).
    destruct (lru_exec_step zero (slice_view c) hist o Hinv Hrec)
      as (d & Hd & Hinv1 & Hrec1 & _).
    assert (d = slice_view c1) as -> by congruence.
    destruct (IH c1 _ Hinv1 Hrec1) as (c' & Hrun & Hrun' & Hinv').
    exists c'. simpl. split_and!; [|
      |done].
    + by erewrite bind_Ok by exact Hs.
    + by erewrite bind_Ok by exact Hl.
Qed.

(** Every list of calls on a new slice-based cache returns, in the state in
    which the list-based cache is after the same calls. *)
Lemma slice_refines_list (cap : Z) c0 ops :
  LRU_slice.NewLRU cap = (Some c0, None) →
  LRU.NewLRU cap = (Some (slice_view c0), None)
  ∧ ∃ c, LRU_slice.run zero ops c0 = Ok tt c
      ∧ LRU.run zero ops (slice_view c0) = Ok tt (slice_view c)
      ∧ Z.of_nat (size (LRU_slice.store c)) <= cap
      ∧ length (LRU_slice.order c) = size (LRU_slice.store c).
Proof.
  intros Hnew.
  assert (LRU.NewLRU cap = (Some (slice_view c0), None)) as Hnew'.
  { revert Hnew. unfold LRU_slice.NewLRU, LRU.NewLRU.
    destruct (decide (cap <= 0)); [done|]. by intros [= <-]. }
  split; [done|].
  pose proof (NewLRU_inv cap _ Hnew') as Hinv.
  destruct (slice_run_simulates ops c0 [] Hinv) as (c & Hrun & Hrun' & Hinv').
  { apply NewLRU_ok in Hnew' as [_ Hc0]. injection Hc0 as _ _ -> _. apply by_recency_nil. }
  destruct (lru_reach zero cap _ ops Hnew') as (d & Hd & _ & _ & Hcap).
  assert (d = slice_view c) as -> by congruence.
  exists c. split_and!; [done|done| |].
  - rewrite <-Hcap. apply Hinv'.
  - apply (lru_inv_length _ Hinv').
Qed.

End lru_slice.

(** ** The first TTL cache (package cache) *)

Section ttl1.
Context {Key : Type} `{Countable Key} {Val : Type} (zero : Val).
Implicit Types (c : TTL_cache.TTLCache Key Val) (k : Key) (v : Val) (now : time.Time).

Lemma ttl1_sweep_fold_lookup now (ttl : time.Duration)
    (acc m : gmap Key (TTL_cache.cacheEntry Key Val)) k :
  map_fold (TTL_cache.sweep now ttl) acc m !! k =
    match m !! k with
    | Some e =>
        if decide (time.Since now (TTL_cache.lastVisited e) >= ttl) then None else acc !! k
    | None => acc !! k
    end.
Proof.
  revert k. apply (map_fold_weak_ind (λ r m, ∀ k, r !! k = match m !! k with
    | Some e =>
        if decide (time.Since now (TTL_cache.lastVisited e) >= ttl) then None else acc !! k
    | None => acc !! k end)).
  - intros k. by rewrite lookup_empty.
  - intros i x m' r Hi IH k. unfold TTL_cache.sweep.
    destruct (decide (k = i)) as [->|Hne].
    + rewrite lookup_insert_eq. case_decide; [by rewrite lookup_delete_eq|by rewrite IH, Hi].
    + rewrite lookup_insert_ne by done.
      case_decide; [by rewrite lookup_delete_ne, IH|by rewrite IH].
Qed.

(** Its Cleanup removes the entries of age at least the time to live, and
    only them, like the Cleanup of package ttl. *)
Lemma ttl1_cleanup_removes_expired c now :
  TTL_cache.mu c = false →
  0 < TTL_cache.timeToLive c <= time.maxDuration →
  ∃ c', TTL_cache.Cleanup now c = Ok tt c'
    ∧ (∀ k e, TTL_cache.store c !! k = Some e →
         now - TTL_cache.lastVisited e >= TTL_cache.timeToLive c →
         TTL_cache.store c' !! k = None)
    ∧ (∀ k e, TTL_cache.store c !! k = Some e →
         now - TTL_cache.lastVisited e < TTL_cache.timeToLive c →
         TTL_cache.store c' !! k = Some e)
    ∧ (∀ k, TTL_cache.store c !! k = None → TTL_cache.store c' !! k = None).
Proof.
  destruct c as [st ttl roa m]; simpl. intros -> [Hpos Hmax].
  eexists. split; [reflexivity|]. simpl. split_and!.
  - intros k e E Hold. rewrite ttl1_sweep_fold_lookup, E.
    rewrite decide_True; [done|]. by apply Since_ge.
  - intros k e E Hyoung. rewrite ttl1_sweep_fold_lookup, E.
    rewrite decide_False; [done|]. rewrite Since_ge by done. lia.
  - intros k E. by rewrite ttl1_sweep_fold_lookup, E.
Qed.

(** Its Get returns every entry of the store, whatever its age, and with
    resetOnAccess sets the time of the entry to [now]. *)
Lemma ttl1_get_ignores_age c now k e :
  TTL_cache.mu c = false →
  TTL_cache.store c !! k = Some e →
  TTL_cache.Get zero now k c =
    Ok (TTL_cache.val e, true)
       (if TTL_cache.resetOnAccess c
        then TTL_cache.set_store (alter (TTL_cache.touch now) k) c
        else c).
Proof.
  destruct c as [st ttl roa m]; simpl. intros -> E.
  unfold TTL_cache.Get, defer, mbind, M_bind, bind; simpl. rewrite E.
  by destruct roa.
Qed.

End ttl1.

(** ** The scenarios of the specification, evaluated *)

(** Capacity 2: Put(A,1), Put(B,2), Put(C,3), then Get(A), Get(B), Get(C). *)
Example lru_scenario_evicts_first :
  returned
    ((LRU.run 0 [OpPut "A" 1; OpPut "B" 2; OpPut "C" 3] ;;
      a ← LRU.Get 0 "A"; b ← LRU.Get 0 "B"; c ← LRU.Get 0 "C"; ret (a, b, c))
       (scenario.lru 2))
  = Some ((0, false), (2, true), (3, true)).
Proof. reflexivity. Qed.

(** The same calls on the slice-based cache. *)
Example lru_slice_scenario :
  ∃ c0, LRU_slice.NewLRU (Key := string) (Val := Z) 2 = (Some c0, None)
    ∧ returned
        ((LRU_slice.run 0 scenario.calls ;;
          b ← LRU_slice.Get 0 "B"; a ← LRU_slice.Get 0 "A"; ret (b, a)) c0)
      = Some ((0, false), (1, true)).
Proof. eexists. split; reflexivity. Qed.

(** NewLRU(0) and NewTTL(0, false) *)
Example constructors_scenario :
  LRU.NewLRU (Key := string) (Val := Z) 0
    = (None, Some "capacity must be greater than zero")
  ∧ TTL.NewTTL (Key := string) (Val := Z) 0 false
    = (None, Some "ttl must be greater than zero.").
Proof. split; reflexivity. Qed.

(** Cleanup on a cache with a fresh and a stale entry, then Size. *)
Example ttl_scenario_cleanup_size :
  returned
    ((TTL.Cleanup (scenario.ms 120) ;; TTL.Size)
       (scenario.ttl (scenario.ms 100) false
          [("A", scenario.entry 1 0); ("B", scenario.entry 2 (scenario.ms 80))]))
  = Some 1.
Proof. by vm_compute. Qed.

(** TTL = 100ms, Put(A,1) at t = 0, Get(A) at t = 150ms: the entry is
    deleted, and the process stops in the deferred RUnlock. *)
Example ttl_scenario_expired_get :
  TTL.Get 0 (scenario.ms 150) "A"
    (scenario.ttl (scenario.ms 100) false [("A", scenario.entry 1 0)])
  = Fatal "fatal error: sync: RUnlock of unlocked RWMutex"
      (scenario.ttl (scenario.ms 100) false []).
Proof. by vm_compute. Qed.

(** ** Get of package ttl at the boundary *)

(** Whatever the cache, an entry whose age is exactly the time to live passes
    the test of Get: its statements hand the value and true to the return. *)
Lemma ttl_get_body_at_ttl {Key : Type} `{Countable Key} {Val : Type} (zero : Val)
    (c : TTL.TTLCache Key Val) (now : time.Time) (k : Key) (e : TTL.cacheEntry Val) :
  ttl_inv c →
  TTL.storege c !! k = Some e →
  now - TTL.lastVisited e = TTL.timeToLive c →
  TTL.Get_body zero now k
    (TTL.set_mu {| sync.readers := 1; sync.writer := false |} c)
  = Ok (TTL.val e, true)
      (if TTL.resetOnRead c then TTL.set_storege (alter (TTL.touch now) k) c else c).
Proof.
  intros [Hmu _ Hpos Hmax] E Hage. apply TTL_Get_body_fresh; [done|done|].
  rewrite Since_exact; [lia|]. unfold time.minDuration, time.maxDuration in *. lia.
Qed.

(** * Further properties of the LRU cache (src/cache/lru.go) *)

Section lru_more.
Context {Key : Type} `{Countable Key} {Val : Type} (zero : Val).
Implicit Types (c : LRU.lruCache Key Val) (k : Key) (v : Val).
Implicit Types (ops hist : list (op Key Val)) (o : op Key Val).

(** The three ways of Put. *)
Lemma lru_Put_cases c k v :
  lru_inv c →
  ∃ c1, LRU.Put k v c = Ok tt c1 ∧ lru_inv c1
    ∧ ((is_Some (LRU.store c !! k)
        ∧ LRU.store c1 = <[k := v]> (LRU.store c)
        ∧ LRU.order c1 = promote k (LRU.order c))
       ∨ (LRU.store c !! k = None
          ∧ Z.of_nat (size (LRU.store c)) ≠ LRU.capacity c
          ∧ LRU.store c1 = <[k := v]> (LRU.store c)
          ∧ LRU.order c1 = LRU.order c ++ [k])
       ∨ (LRU.store c !! k = None
          ∧ Z.of_nat (size (LRU.store c)) = LRU.capacity c
          ∧ ∃ h t, LRU.order c = h :: t
              ∧ LRU.store c1 = <[k := v]> (delete h (LRU.store c))
              ∧ LRU.order c1 = t ++ [k])).
Proof.
  intros Hinv. destruct (LRU.store c !! k) as [v0|] eqn:E.
  - destruct (lru_inv_Put_present c k v v0 Hinv E) as [HPut Hinv'].
    eexists. split_and!; [exact HPut|done|]. left. by split_and!.
  - destruct (decide (Z.of_nat (size (LRU.store c)) = LRU.capacity c)) as [Hfull|Hroom].
    + destruct (lru_inv_full_order c Hinv Hfull) as (h & t & Ho).
      destruct (lru_inv_Put_absent_full c k v h t Hinv E Hfull Ho) as (HPut & _ & _ & Hinv').
      eexists. split_and!; [exact HPut|done|]. right; right.
      split_and!; [done|done|]. by exists h, t.
    + destruct (lru_inv_Put_absent_room c k v Hinv E Hroom) as [HPut Hinv'].
      eexists. split_and!; [exact HPut|done|]. right; left. by split_and!.
Qed.

Lemma lru_Put_stores c k v c1 :
  lru_inv c → LRU.Put k v c = Ok tt c1 →
  LRU.store c1 !! k = Some v ∧ last (LRU.order c1) = Some k.
Proof.
  intros Hinv HPut. destruct (lru_Put_cases c k v Hinv) as (c1' & HPut' & _ & Hcase).
  assert (c1' = c1) as -> by congruence.
  destruct Hcase as [(_ & -> & ->)|[(_ & _ & -> & ->)|(_ & _ & h & t & _ & -> & ->)]];
    (split; [apply lookup_insert_eq|apply last_snoc]).
Qed.


(** X2.  Get of a key that is not in the cache returns the zero value and
    false and changes nothing: neither the store nor the ordering. *)
Theorem lru_get_miss_changes_nothing (cap : Z) c0 ops c k :
  LRU.NewLRU cap = (Some c0, None) →
  LRU.run zero ops c0 = Ok tt c →
  LRU.store c !! k = None →
  LRU.Get zero k c = Ok (zero, false) c.
Proof.
  intros Hnew Hrun E.
  destruct (lru_reach zero cap c0 ops Hnew) as (c1 & Hrun1 & Hinv & _ & _).
  assert (c1 = c) as -> by congruence.
  apply LRU_Get_miss; [apply Hinv|done].
Qed.


(** X4.  Put of a new key into a cache that is not full evicts nothing: the
    key is added to the store and at the end of the ordering, the other
    entries stay, the size grows by one. *)
Theorem lru_put_new_with_room (cap : Z) c0 ops c k v :
  LRU.NewLRU cap = (Some c0, None) →
  LRU.run zero ops c0 = Ok tt c →
  LRU.store c !! k = None →
  Z.of_nat (size (LRU.store c)) < cap →
  ∃ c1, LRU.Put k v c = Ok tt c1
    ∧ LRU.store c1 = <[k := v]> (LRU.store c)
    ∧ LRU.order c1 = LRU.order c ++ [k]
    ∧ size (LRU.store c1) = S (size (LRU.store c))
    ∧ (∀ j, j ≠ k → LRU.store c1 !! j = LRU.store c !! j).
Proof.
  intros Hnew Hrun E Hlt.
  destruct (lru_reach zero cap c0 ops Hnew) as (c' & Hrun1 & Hinv & _ & Hcap).
  assert (c' = c) as -> by congruence.
  assert (Z.of_nat (size (LRU.store c)) ≠ LRU.capacity c) as Hroom by lia.
  destruct (lru_inv_Put_absent_room c k v Hinv E Hroom) as [HPut _].
  eexists. split; [exact HPut|]. simpl. split_and!; [done|done| |].
  - by apply map_size_insert_None.
  - intros j Hj. by rewrite lookup_insert_ne.
Qed.

End lru_more.

Lemma lru_get_miss_changes_nothing_witness :
  LRU.Get 0 "B" (scenario.lru2 ["A"; "C"] [("A", 1); ("C", 3)])
  = Ok (0, false) (scenario.lru2 ["A"; "C"] [("A", 1); ("C", 3)]).
Proof.
  exact (lru_get_miss_changes_nothing 0 2 (scenario.lru 2) scenario.calls
           (scenario.lru2 ["A"; "C"] [("A", 1); ("C", 3)]) "B" eq_refl eq_refl eq_refl).
Defined.

Lemma lru_put_new_with_room_witness :
  ∃ c1, LRU.Put "B" 2 (scenario.lru2 ["A"] [("A", 1)]) = Ok tt c1
    ∧ LRU.order c1 = ["A"; "B"].
Proof.
  destruct (lru_put_new_with_room 0 2 (scenario.lru 2) [OpPut "A" 1]
              (scenario.lru2 ["A"] [("A", 1)]) "B" 2 eq_refl eq_refl eq_refl eq_refl)
    as (c1 & HPut & _ & Ho & _).
  exists c1. by split.
Defined.

Section lru_more_runs.
Context {Key : Type} `{Countable Key} {Val : Type} (zero : Val).
Implicit Types (c : LRU.lruCache Key Val) (k : Key) (v : Val).
Implicit Types (ops hist more : list (op Key Val)) (o : op Key Val).




End lru_more_runs.

Section lru_more_keys.
Context {Key : Type} `{Countable Key} {Val : Type} (zero : Val).
Implicit Types (c : LRU.lruCache Key Val) (k : Key) (v : Val).
Implicit Types (ops hist : list (op Key Val)) (o : op Key Val).

(** X6.  In a cache of capacity at least 2, the most recently used key (the
    last of the ordering) is not evicted by the next Put, whatever key is
    put; unless it is the key put itself, it keeps its value. *)
Theorem lru_most_recent_survives_put (cap : Z) c0 ops c k k' v' :
  LRU.NewLRU cap = (Some c0, None) →
  LRU.run zero ops c0 = Ok tt c →
  2 <= cap →
  last (LRU.order c) = Some k →
  ∃ c1, LRU.Put k' v' c = Ok tt c1
    ∧ is_Some (LRU.store c1 !! k)
    ∧ (k' ≠ k → LRU.store c1 !! k = LRU.store c !! k).
Proof.
  intros Hnew Hrun Hcap2 Hlast.
  destruct (lru_reach zero cap c0 ops Hnew) as (c' & Hrun1 & Hinv & _ & Hcap).
  assert (c' = c) as -> by congruence.
  assert (k ∈ LRU.order c) as Hin.
  { apply last_Some in Hlast as [l ->]. apply elem_of_app. right. left. }
  assert (is_Some (LRU.store c !! k)) as Hk by (by apply Hinv).
  destruct (lru_Put_cases c k' v' Hinv) as (c1 & HPut & _ & Hcase).
  exists c1. split; [done|].
  destruct Hcase as [(_ & -> & _)|[(_ & _ & -> & _)|(E & Hfull & h & t & Ho & -> & _)]].
  - rewrite lookup_insert_is_Some. split; [destruct (decide (k' = k)); auto|].
    intros Hne. by rewrite lookup_insert_ne.
  - rewrite lookup_insert_is_Some. split; [destruct (decide (k' = k)); auto|].
    intros Hne. by rewrite lookup_insert_ne.
  - assert (k' ≠ k) as Hne by (intros ->; destruct Hk; congruence).
    assert (k ≠ h) as Hkh.
    { pose proof (lru_inv_length c Hinv) as Hlen.
      pose proof (inv_nodup c Hinv) as Hnd. rewrite Ho in Hlen, Hnd, Hlast.
      apply NoDup_cons in Hnd as [Hht _].
      destruct t as [|x t]; [simpl in Hlen; lia|].
      intros ->. apply Hht. rewrite last_cons_cons in Hlast.
      apply last_Some in Hlast as [l ->]. apply elem_of_app. right. left. }
    rewrite lookup_insert_ne, lookup_delete_ne by done. by split.
Qed.


Lemma last_put_snoc k ops o :
  last_put k (ops ++ [o]) =
    match o with
    | OpPut k' v => if decide (k' = k) then Some v else last_put k ops
    | OpGet _ => last_put k ops
    end.
Proof.
  unfold last_put. rewrite omap_app. destruct o as [k'|k' v]; simpl.
  - by rewrite (right_id_L [] (++)).
  - destruct (decide (k' = k)); simpl; [apply last_snoc|by rewrite (right_id_L [] (++))].
Qed.

(** One call keeps the values of the store up to date. *)
Lemma lru_exec_up_to_date c hist o :
  lru_inv c →
  (∀ k v, LRU.store c !! k = Some v → last_put k hist = Some v) →
  ∃ c1, LRU.exec zero o c = Ok tt c1 ∧ lru_inv c1
    ∧ (∀ k v, LRU.store c1 !! k = Some v → last_put k (hist ++ [o]) = Some v).
Proof.
  intros Hinv Hup. destruct o as [k0|k0 v0]; simpl.
  - destruct (LRU.store c !! k0) as [v|] eqn:E.
    + destruct (lru_inv_Get_hit zero c k0 v Hinv E) as [HGet Hinv'].
      eexists. split; [by erewrite bind_Ok by exact HGet|]. split; [done|].
      intros k v1 Hk. rewrite last_put_snoc. by apply Hup.
    + exists c. split; [|split; [done|]].
      * by erewrite bind_Ok by (apply LRU_Get_miss; [apply Hinv|done]).
      * intros k v1 Hk. rewrite last_put_snoc. by apply Hup.
  - destruct (lru_Put_cases c k0 v0 Hinv) as (c1 & HPut & Hinv1 & Hcase).
    exists c1. split_and!; [done|done|].
    intros k v Hk. rewrite last_put_snoc.
    destruct (decide (k0 = k)) as [->|Hne].
    + destruct (lru_Put_stores c k v0 c1 Hinv HPut) as [Hst _]. congruence.
    + apply Hup.
      destruct Hcase as [(_ & Hst & _)|[(_ & _ & Hst & _)|(_ & _ & h & t & _ & Hst & _)]];
        rewrite Hst, lookup_insert_ne in Hk by done; [done|done|].
      by apply lookup_delete_Some in Hk as [_ Hk].
Qed.

Lemma lru_run_up_to_date ops c hist :
  lru_inv c →
  (∀ k v, LRU.store c !! k = Some v → last_put k hist = Some v) →
  ∃ c1, LRU.run zero ops c = Ok tt c1
    ∧ (∀ k v, LRU.store c1 !! k = Some v → last_put k (hist ++ ops) = Some v).
Proof.
  revert c hist. induction ops as [|o ops IH]; intros c hist Hinv Hup.
  - exists c. by rewrite (right_id_L [] (++)).
  - destruct (lru_exec_up_to_date c hist o Hinv Hup) as (c1 & Hexec & Hinv1 & Hup1).
    destruct (IH c1 _ Hinv1 Hup1) as (c2 & Hrun & Hup2).
    exists c2. simpl. split; [by erewrite bind_Ok by exact Hexec|].
    by rewrite <-(assoc_L (++)) in Hup2.
Qed.

(** X8.  A hit is never stale: when Get(k) returns (v, true), [v] is the
    value of the last Put(k, _) among the calls made on the cache. *)
Theorem lru_hit_returns_last_put (cap : Z) c0 ops c k v c' :
  LRU.NewLRU cap = (Some c0, None) →
  LRU.run zero ops c0 = Ok tt c →
  LRU.Get zero k c = Ok (v, true) c' →
  last_put k ops = Some v.
Proof.
  intros Hnew Hrun HGet.
  pose proof (NewLRU_inv cap c0 Hnew) as Hinv0.
  destruct (lru_run_up_to_date ops c0 [] Hinv0) as (c1 & Hrun1 & Hup).
  { apply NewLRU_ok in Hnew as [_ ->]. simpl. intros k1 v1. by rewrite lookup_empty. }
  assert (c1 = c) as -> by congruence. simpl in Hup.
  destruct (lru_reach zero cap c0 ops Hnew) as (c2 & Hrun2 & Hinv & _ & _).
  assert (c2 = c) as -> by congruence.
  destruct (LRU.store c !! k) as [v1|] eqn:E.
  - destruct (lru_inv_Get_hit zero c k v1 Hinv E) as [HGet' _].
    rewrite HGet' in HGet. injection HGet as -> _. by apply Hup.
  - rewrite LRU_Get_miss in HGet by (done || apply Hinv). by injection HGet.
Qed.

End lru_more_keys.


Lemma lru_most_recent_survives_put_witness :
  ∃ c1, LRU.Put "B" 2 (scenario.lru2 ["A"; "C"] [("A", 1); ("C", 3)]) = Ok tt c1
    ∧ is_Some (LRU.store c1 !! "C").
Proof.
  destruct (lru_most_recent_survives_put 0 2 (scenario.lru 2) scenario.calls
              (scenario.lru2 ["A"; "C"] [("A", 1); ("C", 3)]) "C" "B" 2
              eq_refl eq_refl ltac:(lia) eq_refl)
    as (c1 & HPut & Hk & _).
  exists c1. by split.
Defined.

Lemma lru_hit_returns_last_put_witness :
  last_put "A" (scenario.calls ++ [OpPut "A" 5]) = Some 5.
Proof.
  exact (lru_hit_returns_last_put 0 2 (scenario.lru 2) (scenario.calls ++ [OpPut "A" 5])
           (scenario.lru2 ["C"; "A"] [("A", 5); ("C", 3)]) "A" 5
           (scenario.lru2 ["C"; "A"] [("A", 5); ("C", 3)])
           eq_refl eq_refl eq_refl).
Defined.

(** * Further properties of the slice-based LRU cache (src/unnamed/part_000) *)

Section lru_slice_more.
Context {Key : Type} `{Countable Key} {Val : Type} (zero : Val).
Implicit Types (c : LRU_slice.lruCache Key Val) (k : Key) (v : Val).
Implicit Types (ops : list (op Key Val)).

Lemma slice_Get_simulates c k :
  lru_inv (slice_view c) →
  ∃ r c', LRU_slice.Get zero k c = Ok r c'
          ∧ LRU.Get zero k (slice_view c) = Ok r (slice_view c').
Proof.
  intros Hinv. pose proof Hinv as [_ Hmu Hnd Hkeys _].
  destruct c as [cap st ord m]; simpl in *. subst m.
  destruct (st !! k) as [v|] eqn:E.
  - destruct (lru_inv_Get_hit zero _ k v Hinv E) as [HGet _]. rewrite HGet.
    unfold LRU_slice.Get, LRU_slice.recentify,
      LRU_slice.mu_Lock, LRU_slice.mu_Unlock, sync.on_lock,
      defer, mbind, M_bind, bind, modify, get, ret,
      LRU_slice.set_order, LRU_slice.set_store, LRU_slice.set_mu; simpl.
    rewrite E; simpl. rewrite DeleteFunc_filter. eexists _, _. split; reflexivity.
  - rewrite (LRU_Get_miss zero _ k) by done.
    unfold LRU_slice.Get, LRU_slice.mu_Lock, LRU_slice.mu_Unlock, sync.on_lock,
      defer, mbind, M_bind, bind, modify, get, ret, LRU_slice.set_mu; simpl.
    rewrite E; simpl. eexists _, _. split; reflexivity.
Qed.

End lru_slice_more.

(** * Further properties of the TTL cache of package ttl (src/ttl/ttl.go) *)

Section ttl_more.
Context {Key : Type} `{Countable Key} {Val : Type} (zero : Val).
Implicit Types (c : TTL.TTLCache Key Val) (k : Key) (v : Val) (now : time.Time).

(** The store after Cleanup, key by key. *)
Lemma TTL_Cleanup_lookup c now :
  ttl_inv c →
  ∃ c1, TTL.Cleanup now c = Ok tt c1
    ∧ ttl_inv c1
    ∧ TTL.timeToLive c1 = TTL.timeToLive c
    ∧ c1 = TTL.set_storege (λ _, TTL.storege c1) c
    ∧ ∀ k, TTL.storege c1 !! k =
        match TTL.storege c !! k with
        | Some e =>
            if decide (now - TTL.lastVisited e >= TTL.timeToLive c) then None else Some e
        | None => None
        end.
Proof.
  intros Hinv. pose proof Hinv as [Hmu _ Hpos Hmax].
  eexists. split; [by apply TTL_Cleanup_ok|].
  split_and!; [by apply ttl_inv_set_storege|done|done|].
  intros k. simpl. rewrite sweep_fold_lookup.
  destruct (TTL.storege c !! k) as [e|] eqn:E; [|done].
  pose proof (Since_ge now (TTL.lastVisited e) _ Hpos Hmax).
  repeat case_decide; tauto.
Qed.

(** X10.  Put returns, with the locks free.  It stores the value under the
    key with the time [now], whether the key was in the store or not and
    whatever resetOnRead is; it leaves the other entries, the time to live
    and the flag as they are. *)
Theorem ttl_put_stamps_now c now k v :
  ttl_inv c →
  ∃ c1, TTL.Put now k v c = Ok tt c1
    ∧ TTL.storege c1 !! k = Some {| TTL.val := v; TTL.lastVisited := now |}
    ∧ (∀ j, j ≠ k → TTL.storege c1 !! j = TTL.storege c !! j)
    ∧ TTL.timeToLive c1 = TTL.timeToLive c
    ∧ TTL.resetOnRead c1 = TTL.resetOnRead c
    ∧ ttl_inv c1.
Proof.
  intros Hinv. eexists. split; [apply TTL_Put_ok, Hinv|]. simpl.
  split_and!; [apply lookup_insert_eq| |done|done|by apply ttl_inv_set_storege].
  intros j Hj. by rewrite lookup_insert_ne.
Qed.

(** X11.  Size returns the number of entries of the store, whatever their
    ages, and changes nothing.  Put of a new key raises it by one and Put of
    a stored key leaves it; Cleanup never raises it. *)
Theorem ttl_size_counts_stored_entries c :
  ttl_inv c →
  TTL.Size c = Ok (Z.of_nat (size (TTL.storege c))) c
  ∧ (∀ now k v,
       ∃ c1, TTL.Put now k v c = Ok tt c1
         ∧ TTL.Size c1 =
             Ok (match TTL.storege c !! k with
                 | Some _ => Z.of_nat (size (TTL.storege c))
                 | None => Z.of_nat (size (TTL.storege c)) + 1
                 end) c1)
  ∧ (∀ now,
       ∃ c1 n, TTL.Cleanup now c = Ok tt c1
         ∧ TTL.Size c1 = Ok n c1
         ∧ n <= Z.of_nat (size (TTL.storege c))).
Proof.
  intros Hinv. split_and!.
  - apply TTL_Size_ok, Hinv.
  - intros now k v. eexists. split; [apply TTL_Put_ok, Hinv|].
    rewrite TTL_Size_ok by apply Hinv. simpl. f_equal.
    rewrite map_size_insert. destruct (TTL.storege c !! k); simpl; lia.
  - intros now. destruct (TTL_Cleanup_lookup c now Hinv) as (c1 & HC & Hinv1 & _ & _ & Hl).
    exists c1, (Z.of_nat (size (TTL.storege c1))).
    split_and!; [done|apply TTL_Size_ok, Hinv1|].
    apply inj_le, map_subseteq_size, map_subseteq_spec.
    intros j e Hj. rewrite Hl in Hj.
    destruct (TTL.storege c !! j) as [e'|]; [|done]. by case_decide.
Qed.

(** X12.  Sweeps compose: Cleanup at [now] followed by Cleanup at a later
    time [now'] leaves the cache that one Cleanup at [now'] leaves.  With
    [now' = now]: a second Cleanup at the same time changes nothing. *)
Theorem ttl_cleanup_twice c now now' :
  ttl_inv c →
  now <= now' →
  ∃ c1 c2, TTL.Cleanup now c = Ok tt c1
    ∧ TTL.Cleanup now' c1 = Ok tt c2
    ∧ TTL.Cleanup now' c = Ok tt c2
    ∧ (now' = now → c2 = c1).
Proof.
  intros Hinv Hle.
  destruct (TTL_Cleanup_lookup c now Hinv) as (c1 & HC1 & Hinv1 & Httl1 & Hc1 & Hl1).
  destruct (TTL_Cleanup_lookup c1 now' Hinv1) as (c2 & HC2 & _ & _ & Hc2 & Hl2).
  destruct (TTL_Cleanup_lookup c now' Hinv) as (c3 & HC3 & _ & _ & Hc3 & Hl3).
  assert (TTL.storege c2 = TTL.storege c3) as Hst.
  { apply map_eq. intros k. rewrite Hl2, Hl3, Hl1, Httl1.
    destruct (TTL.storege c !! k) as [e|]; [|done].
    repeat case_decide; try done; lia. }
  assert (c2 = c3) as Heq.
  { rewrite Hc2, Hc3, Hc1, Hst. by destruct c. }
  exists c1, c2. split_and!; [done|done|by rewrite Heq|].
  intros ->.
  assert (TTL.storege c2 = TTL.storege c1) as Hst2.
  { apply map_eq. intros k. rewrite Hl2, Hl1, Httl1.
    destruct (TTL.storege c !! k) as [e|]; [|done].
    repeat case_decide; try done; lia. }
  rewrite Hc2, Hst2. by destruct c1.
Qed.

(** X14.  Before it stops, Get has changed at most the entry under its key:
    it has deleted it when its age is more than the time to live, set its
    time to [now] when it is not and resetOnRead is on, and left the cache
    as it was otherwise (also when the key is not in the store). *)
Theorem ttl_get_changes_only_its_entry c now k :
  TTL.mu c = sync.RWMutex_zero →
  (∀ j, j ≠ k → TTL.storege (final (TTL.Get zero now k c)) !! j = TTL.storege c !! j)
  ∧ (∀ e, TTL.storege c !! k = Some e →
       time.Since now (TTL.lastVisited e) > TTL.timeToLive c →
       TTL.storege (final (TTL.Get zero now k c)) !! k = None)
  ∧ (∀ e, TTL.storege c !! k = Some e →
       ¬ time.Since now (TTL.lastVisited e) > TTL.timeToLive c →
       TTL.storege (final (TTL.Get zero now k c)) !! k
       = Some (if TTL.resetOnRead c then TTL.touch now e else e))
  ∧ (TTL.storege c !! k = None → final (TTL.Get zero now k c) = c).
Proof.
  intros Hmu. rewrite TTL_Get_fatal by done. simpl. split_and!.
  - intros j Hj. destruct (TTL.storege c !! k) as [e|]; [|done].
    case_decide; simpl; [by rewrite lookup_delete_ne|].
    destruct (TTL.resetOnRead c); simpl; [by rewrite lookup_alter_ne|done].
  - intros e -> Hold. rewrite decide_True by done. simpl. apply lookup_delete_eq.
  - intros e E Hfresh. rewrite E, decide_False by done.
    destruct (TTL.resetOnRead c); simpl; [by rewrite lookup_alter_eq, E|done].
  - by intros ->.
Qed.

End ttl_more.

Lemma ttl_put_stamps_now_witness :
  ∃ c1, TTL.Put (scenario.ms 30) "A" 2
          (scenario.ttl (scenario.ms 100) false [("A", scenario.entry 1 0)]) = Ok tt c1
    ∧ TTL.storege c1 !! "A" = Some (scenario.entry 2 (scenario.ms 30)).
Proof.
  assert (ttl_inv (scenario.ttl (scenario.ms 100) false [("A", scenario.entry 1 0)]))
    as Hinv by (split; [reflexivity|reflexivity|reflexivity|discriminate]).
  destruct (ttl_put_stamps_now _ (scenario.ms 30) "A" 2 Hinv) as (c1 & HP & Hk & _).
  exists c1. by split.
Defined.

Lemma ttl_size_counts_stored_entries_witness :
  TTL.Size (scenario.ttl (scenario.ms 100) false
              [("A", scenario.entry 1 0); ("B", scenario.entry 2 (scenario.ms 80))])
  = Ok 2 (scenario.ttl (scenario.ms 100) false
            [("A", scenario.entry 1 0); ("B", scenario.entry 2 (scenario.ms 80))]).
Proof.
  assert (ttl_inv (scenario.ttl (scenario.ms 100) false
             [("A", scenario.entry 1 0); ("B", scenario.entry 2 (scenario.ms 80))]))
    as Hinv by (split; [reflexivity|reflexivity|reflexivity|discriminate]).
  exact (proj1 (ttl_size_counts_stored_entries _ Hinv)).
Defined.

Lemma ttl_cleanup_twice_witness :
  ∃ c1 c2,
    TTL.Cleanup (scenario.ms 120)
      (scenario.ttl (scenario.ms 100) false
         [("A", scenario.entry 1 0); ("B", scenario.entry 2 (scenario.ms 80))]) = Ok tt c1
    ∧ TTL.Cleanup (scenario.ms 200) c1 = Ok tt c2
    ∧ TTL.Cleanup (scenario.ms 200)
        (scenario.ttl (scenario.ms 100) false
           [("A", scenario.entry 1 0); ("B", scenario.entry 2 (scenario.ms 80))]) = Ok tt c2.
Proof.
  assert (ttl_inv (scenario.ttl (scenario.ms 100) false
             [("A", scenario.entry 1 0); ("B", scenario.entry 2 (scenario.ms 80))]))
    as Hinv by (split; [reflexivity|reflexivity|reflexivity|discriminate]).
  destruct (ttl_cleanup_twice _ (scenario.ms 120) (scenario.ms 200) Hinv ltac:(discriminate))
    as (c1 & c2 & H1 & H2 & H3 & _).
  exists c1, c2. by split_and!.
Defined.

Lemma ttl_get_changes_only_its_entry_witness :
  TTL.storege
    (final (TTL.Get 0 (scenario.ms 150) "A"
              (scenario.ttl (scenario.ms 100) false
                 [("A", scenario.entry 1 0); ("B", scenario.entry 2 (scenario.ms 80))])))
    !! "B"
  = Some (scenario.entry 2 (scenario.ms 80)).
Proof.
  destruct (ttl_get_changes_only_its_entry 0
              (scenario.ttl (scenario.ms 100) false
                 [("A", scenario.entry 1 0); ("B", scenario.entry 2 (scenario.ms 80))])
              (scenario.ms 150) "A" eq_refl) as (Hothers & _).
  rewrite (Hothers "B") by discriminate. reflexivity.
Defined.

Section ttl_more_process.
Context {Key : Type} `{Countable Key} {Val : Type} (zero : Val).
Implicit Types (p : process (TTL.TTLCache Key Val)) (g : goroutine).

Lemma happen_keeps_configuration p ev p' :
  sched_inv p → TTL.happen zero ev p = Ok tt p' →
  TTL.timeToLive (cache p') = TTL.timeToLive (cache p)
  ∧ TTL.resetOnRead (cache p') = TTL.resetOnRead (cache p).
Proof.
  intros (Hmu & Hcm & Hone) Hev.
  destruct ev as [now k|now k v| |now|cx e|cx|now sel i]; simpl in Hev.
  - unfold mbind, M_bind, bind in Hev.
    rewrite (on_cache_Fatal _ _ _ _ (TTL_Get_fatal zero (cache p) now k Hmu)) in Hev. done.
  - rewrite (on_cache_Ok _ _ _ _ (TTL_Put_ok (cache p) now k v Hmu)) in Hev.
    by injection Hev as <-.
  - unfold mbind, M_bind, bind in Hev.
    rewrite (on_cache_Ok _ _ _ _ (TTL_Size_ok (cache p) Hmu)) in Hev.
    by injection Hev as <-.
  - rewrite (on_cache_Ok _ _ _ _ (TTL_Cleanup_ok (cache p) now Hmu)) in Hev.
    by injection Hev as <-.
  - destruct (TTL.cleanupRunning (cache p)) eqn:Hr.
    + rewrite ScheduleCleanup_running in Hev by done. by injection Hev as <-.
    + rewrite ScheduleCleanup_idle in Hev by done. by injection Hev as <-.
  - by injection Hev as <-.
  - destruct p as [[st ttl ror m cr cm] rs cs]; simpl in *. subst m cm.
    unfold TTL.routine_step, mbind, M_bind, bind in Hev; simpl in Hev.
    destruct (rs !! i) as [[cx e [| |]]|]; simpl in Hev.
    + destruct (decide (e <= 0)); [done|]. by injection Hev as <-.
    + destruct sel; [by injection Hev as <-|].
      destruct (decide (cx ∈ cs)); by injection Hev as <-.
    + by injection Hev as <-.
    + by injection Hev as <-.
Qed.

Lemma happen_all_keeps_configuration evs p p' :
  sched_inv p → TTL.happen_all zero evs p = Ok tt p' →
  TTL.timeToLive (cache p') = TTL.timeToLive (cache p)
  ∧ TTL.resetOnRead (cache p') = TTL.resetOnRead (cache p).
Proof.
  revert p. induction evs as [|ev evs IH]; intros p Hp; simpl.
  - by intros [= <-].
  - unfold mbind, M_bind, bind.
    destruct (TTL.happen zero ev p) as [[] p1| |] eqn:Hev; [|done|done].
    intros Hrest.
    destruct (happen_keeps_configuration p ev p1 Hp Hev) as [H1 H2].
    destruct (IH p1 (sched_inv_happen zero p ev p1 Hp Hev) Hrest) as [H3 H4].
    split; congruence.
Qed.

(** X15.  The configuration is fixed at construction: whatever calls,
    cancellations and goroutine steps happen in a process that owns a cache
    made by NewTTL(ttl, ror), the time to live of the cache stays [ttl],
    which is positive, and its flag stays [ror]. *)
Theorem ttl_configuration_never_changes (ttl : time.Duration) (ror : bool)
    (c : TTL.TTLCache Key Val) evs p :
  TTL.NewTTL ttl ror = (Some c, None) →
  TTL.happen_all zero evs (TTL.boot c) = Ok tt p →
  0 < TTL.timeToLive (cache p)
  ∧ TTL.timeToLive (cache p) = ttl
  ∧ TTL.resetOnRead (cache p) = ror.
Proof.
  intros Hnew Hall.
  destruct (happen_all_keeps_configuration evs _ _ (sched_inv_boot c ttl ror Hnew) Hall)
    as [Httl Hror].
  apply NewTTL_ok in Hnew as [Hpos ->]. simpl in *. rewrite Httl, Hror. by split_and!.
Qed.

(** X16.  ScheduleCleanup does not look at the interval: called with an
    interval that is not positive while no cleanup is scheduled, it returns,
    with the flag set and a goroutine started; the first step of this
    goroutine is the panic of time.NewTicker, which stops the process. *)
Theorem ttl_schedule_non_positive_interval p cx (e : time.Duration) now sel :
  reachable zero p →
  TTL.cleanupRunning (cache p) = false →
  e <= 0 →
  ∃ p1, TTL.ScheduleCleanup cx e p = Ok tt p1
    ∧ TTL.cleanupRunning (cache p1) = true
    ∧ routines p1 = [{| ctx := cx; every := e; at_phase := Starting |}]
    ∧ TTL.routine_step now sel 0 p1 =
        Fatal "panic: non-positive interval for NewTicker" p1.
Proof.
  intros (Hmu & Hcm & Hone)%reachable_sched_inv Hr He.
  eexists. split; [by apply ScheduleCleanup_idle|]. simpl.
  unfold one_routine in Hone.
  destruct p as [[st ttl ror m cr cm] rs cs]; simpl in *.
  destruct rs as [|g [|g' rs]]; [|congruence|done].
  split_and!; [done|done|].
  unfold TTL.routine_step, mbind, M_bind, bind; simpl. by rewrite decide_True.
Qed.

End ttl_more_process.

Lemma ttl_configuration_never_changes_witness :
  ∃ p,
    TTL.happen_all 0
      [TTL.CallPut 0 "A" 1; TTL.CallScheduleCleanup 1 (scenario.ms 10);
       TTL.Step (scenario.ms 10) TTL.TickerC 0; TTL.Step (scenario.ms 20) TTL.TickerC 0]
      (TTL.boot (scenario.ttl (scenario.ms 100) true [])) = Ok tt p
    ∧ TTL.timeToLive (cache p) = scenario.ms 100.
Proof.
  eexists. split; [reflexivity|].
  exact (proj1 (proj2 (ttl_configuration_never_changes 0 (scenario.ms 100) true
                         (scenario.ttl (scenario.ms 100) true [])
                         [TTL.CallPut 0 "A" 1; TTL.CallScheduleCleanup 1 (scenario.ms 10);
                          TTL.Step (scenario.ms 10) TTL.TickerC 0;
                          TTL.Step (scenario.ms 20) TTL.TickerC 0]
                         _ eq_refl eq_refl))).
Defined.

Lemma ttl_schedule_non_positive_interval_witness :
  ∃ p1,
    TTL.ScheduleCleanup 1 0 (TTL.boot (scenario.ttl time.Second false [])) = Ok tt p1
    ∧ TTL.routine_step 0 TTL.TickerC 0 p1 =
        Fatal "panic: non-positive interval for NewTicker" p1.
Proof.
  assert (reachable 0 (TTL.boot (scenario.ttl time.Second false []))) as R0.
  { apply (reach_boot 0 time.Second false); [discriminate|reflexivity]. }
  destruct (ttl_schedule_non_positive_interval 0 _ 1 0 0 TTL.TickerC R0 eq_refl
              ltac:(discriminate))
    as (p1 & HS & _ & _ & Hstep).
  exists p1. by split.
Defined.

Section ttl_more_tick.
Context {Key : Type} `{Countable Key} {Val : Type} (zero : Val).
Implicit Types (p : process (TTL.TTLCache Key Val)) (g : goroutine).

Lemma reachable_ttl_inv p : reachable zero p → ttl_inv (cache p).
Proof.
  intros Hp. pose proof (reachable_sched_inv zero p Hp) as (Hmu & Hcm & _).
  induction Hp as [ttl ror c Hmax Hnew|p ev p' Hp IH Hev].
  - by apply (NewTTL_inv ttl ror).
  - pose proof (reachable_sched_inv zero p Hp) as Hs.
    destruct (happen_keeps_configuration zero p ev p' Hs Hev) as [Httl _].
    destruct Hs as (Hmu0 & Hcm0 & _). destruct (IH Hmu0 Hcm0) as [_ _ Hpos Hmax].
    split; [done|done|by rewrite Httl|by rewrite Httl].
Qed.

End ttl_more_tick.

(** * Further properties of the first TTL cache (src/cache/lru.go, package cache) *)

Section ttl1_more.
Context {Key : Type} `{Countable Key} {Val : Type} (zero : Val).
Implicit Types (c : TTL_cache.TTLCache Key Val) (k : Key) (v : Val) (now : time.Time).

Lemma ttl1_Put_ok c now k v :
  TTL_cache.mu c = false →
  ∃ c1 en, TTL_cache.Put now k v c = Ok tt c1
    ∧ TTL_cache.store c1 = <[k := en]> (TTL_cache.store c)
    ∧ TTL_cache.val en = v ∧ TTL_cache.lastVisited en = now
    ∧ TTL_cache.mu c1 = false
    ∧ TTL_cache.timeToLive c1 = TTL_cache.timeToLive c
    ∧ TTL_cache.resetOnAccess c1 = TTL_cache.resetOnAccess c.
Proof.
  destruct c as [st ttl roa m]; simpl. intros ->.
  unfold TTL_cache.Put, defer, mbind, M_bind, bind; simpl.
  destruct (st !! k) as [e0|] eqn:E; simpl.
  - eexists _, {| TTL_cache.key := TTL_cache.key e0; TTL_cache.val := v;
                  TTL_cache.lastVisited := now |}.
    split; [reflexivity|]. simpl. split_and!; try done.
    apply map_eq. intros j. destruct (decide (j = k)) as [->|Hne].
    + by rewrite lookup_insert_eq, !lookup_alter_eq, E.
    + by rewrite lookup_insert_ne, !lookup_alter_ne.
  - eexists _, _. split; [reflexivity|]. by simpl.
Qed.

(** X20.  The ScheduleCleanup of the first TTL cache starts a goroutine at
    every call: after a list of calls the process has one more goroutine per
    call, whatever goroutines it had. *)
Theorem ttl1_schedule_each_starts_goroutine
    (calls : list (nat * time.Duration)) (q : process (TTL_cache.TTLCache Key Val)) :
  ∃ q', schedule_each calls q = Ok tt q'
    ∧ routines q' =
        routines q
        ++ ((λ ce, {| ctx := ce.1; every := ce.2; at_phase := Starting |}) <$> calls)
    ∧ length (routines q') = (length (routines q) + length calls)%nat
    ∧ cache q' = cache q.
Proof.
  revert q. induction calls as [|[cx e] calls IH]; intros q.
  - exists q. simpl. rewrite (right_id_L [] (++)). split_and!; [done|done|lia|done].
  - destruct (IH (set_routines (λ rs, rs ++ [{| ctx := cx; every := e;
                                                 at_phase := Starting |}]) q))
      as (q' & Hrun & Hrs & Hlen & Hc).
    exists q'. split_and!; [exact Hrun| | |done].
    + rewrite Hrs. simpl. by rewrite <-(assoc_L (++)).
    + rewrite Hlen. simpl. rewrite length_app. simpl. lia.
Qed.

End ttl1_more.

(** * The LFU cache (src/cache/lru.go, package cache) *)

Section lfu_more.
Context {Key : Type} `{Countable Key} {Val : Type} (zero : Val).
Implicit Types (c : LFU.lfuCache Key Val) (k : Key) (v : Val).

Lemma LFU_exec_same c (o : op Key Val) :
  LFU.mu c = false → LFU.exec zero o c = Ok tt c.
Proof. destruct c as [st m]; simpl. intros ->. by destruct o. Qed.

(** X21.  The LFU cache stores nothing: whatever Put and Get calls are made
    on it, each returns and leaves the cache as it was, and a Get of any key,
    also of a key that was put, returns the zero value and false. *)
Theorem lfu_cache_stores_nothing c (ops : list (op Key Val)) k :
  LFU.mu c = false →
  LFU.run zero ops c = Ok tt c
  ∧ (LFU.run zero ops ;; LFU.Get zero k) c = Ok (zero, false) c.
Proof.
  intros Hmu.
  assert (LFU.run zero ops c = Ok tt c) as Hrun.
  { induction ops as [|o ops IH]; [done|]. simpl.
    by erewrite bind_Ok by (by apply LFU_exec_same). }
  split; [done|]. erewrite bind_Ok by exact Hrun.
  destruct c as [st m]; simpl in *. by subst m.
Qed.

End lfu_more.

Lemma lfu_cache_stores_nothing_witness :
  (LFU.run 0 [OpPut "A" 1; OpGet "A"] ;; LFU.Get 0 "A")
    {| LFU.store := (∅ : gmap string Z); LFU.mu := false |}
  = Ok (0, false) {| LFU.store := ∅; LFU.mu := false |}.
Proof.
  exact (proj2 (lfu_cache_stores_nothing 0 {| LFU.store := ∅; LFU.mu := false |}
                  [OpPut "A" 1; OpGet "A"] "A" eq_refl)).
Defined.

(** * How two Puts of one key compose *)

Section put_twice.
Context {Key : Type} `{Countable Key} {Val : Type} (zero : Val).




End put_twice.

(** * Properties of the caches on every comparable key type *)

(** ** Keys equal to themselves: the caches of the first part *)

Section any_key_facts.
Context {Key : Type} `{Countable Key} (selfeq : Key → bool).


Lemma keq_not_selfeq (x k : Key) : selfeq k = false → keq selfeq x k = false.
Proof. intros Hk. unfold keq. by rewrite Hk. Qed.


Lemma IndexOf_any_not_selfeq (l : list Key) k i :
  selfeq k = false →
  dll_any.IndexOf_scan (keq selfeq) i k l = (-1, length l).
Proof.
  intros Hk. revert i. induction l as [|x l IH]; intros i; simpl; [done|].
  rewrite keq_not_selfeq by done. by rewrite IH.
Qed.

Lemma Remove_IndexOf_any_not_selfeq (l : list Key) k :
  selfeq k = false → dll.Remove l (dll_any.IndexOf (keq selfeq) l k) = l.
Proof.
  intros Hk. unfold dll_any.IndexOf. by rewrite IndexOf_any_not_selfeq.
Qed.


End any_key_facts.

Section lru_any_sim.
Context {Key : Type} `{Countable Key} (selfeq : Key → bool) {Val : Type} (zero : Val).
Implicit Types (g : LRU_any.lruCache Key Val) (c : LRU.lruCache Key Val).
Implicit Types (k : Key) (v : Val) (ops : list (op Key Val)) (o : op Key Val).





End lru_any_sim.

Section lru_any_reach.
Context {Key : Type} `{Countable Key} (selfeq : Key → bool) {Val : Type} (zero : Val).
Implicit Types (g : LRU_any.lruCache Key Val) (c : LRU.lruCache Key Val).
Implicit Types (k : Key) (v : Val) (ops : list (op Key Val)) (o : op Key Val).








End lru_any_reach.

(** ** The LRU cache on every comparable key type: capacity *)

Section lru_any_calls.
Context {Key : Type} `{Countable Key} (selfeq : Key → bool) {Val : Type} (zero : Val).
Implicit Types (g : LRU_any.lruCache Key Val) (c : LRU.lruCache Key Val).
Implicit Types (k : Key) (v : Val) (ops : list (op Key Val)) (o : op Key Val).





Lemma gomap_lookup_Some (m : gomap.t Key Val) k v :
  gomap.lookup selfeq k m = Some v → selfeq k = true ∧ gomap.found m !! k = Some v.
Proof. unfold gomap.lookup. by destruct (selfeq k). Qed.



End lru_any_calls.

Section lru_any_claims.
Context {Key : Type} `{Countable Key} (selfeq : Key → bool) {Val : Type} (zero : Val).
Implicit Types (g : LRU_any.lruCache Key Val) (c : LRU.lruCache Key Val).
Implicit Types (k : Key) (v : Val) (ops : list (op Key Val)) (o : op Key Val).


End lru_any_claims.


(** The slice-based cache at the same calls: three entries as well. *)
Example lru_slice_nan_keys_exceed_capacity :
  ∃ s, LRU_slice_any.run f64_selfeq 0 [OpPut NaN 1; OpPut NaN 2; OpPut NaN 3]
         (scenario_f64.slice_at 2 [] [] []) = Ok tt s
    ∧ LRU_slice_any.store s
      = {| gomap.found := ∅; gomap.lost := [(NaN, 1); (NaN, 2); (NaN, 3)] |}
    ∧ LRU_slice_any.order s = [NaN; NaN].
Proof. eexists. split; [vm_compute; reflexivity|]. by split. Qed.


(** ** The LRU cache on every comparable key type: eviction *)

Section lru_any_recency.
Context {Key : Type} `{Countable Key} (selfeq : Key → bool) {Val : Type} (zero : Val).
Implicit Types (g : LRU_any.lruCache Key Val) (c : LRU.lruCache Key Val).
Implicit Types (k : Key) (v : Val) (ops : list (op Key Val)).


End lru_any_recency.




(** ** The TTL cache of package ttl on every comparable key type *)

Section gomap_facts.
Context {Key : Type} `{Countable Key} (selfeq : Key → bool) {V : Type}.
Implicit Types (m : gomap.t Key V) (k : Key).

Lemma gomap_wf_make : gomap_wf selfeq (gomap.make (K := Key) (V := V)).
Proof.
  split; simpl; [|constructor]. intros k [? Hk]. by rewrite lookup_empty in Hk.
Qed.

Lemma gomap_wf_store m k (x : V) : gomap_wf selfeq m → gomap_wf selfeq (gomap.store selfeq k x m).
Proof.
  intros [Hf Hl]. unfold gomap.store. destruct (selfeq k) eqn:Hk; split; simpl; try done.
  - intros j [-> | [_ Hj]]%lookup_insert_is_Some; [done|by apply Hf].
  - apply Forall_app. split; [done|]. by repeat constructor.
Qed.

Lemma gomap_wf_delete m k : gomap_wf selfeq m → gomap_wf selfeq (gomap.delete selfeq k m).
Proof.
  intros [Hf Hl]. unfold gomap.delete. destruct (selfeq k) eqn:Hk; split; simpl; try done.
  intros j [x Hj]. apply Hf. destruct (decide (j = k)) as [->|Hne].
  - by rewrite lookup_delete_eq in Hj.
  - rewrite lookup_delete_ne in Hj by done. eauto.
Qed.

Lemma gomap_wf_update m k (f : V → V) :
  gomap_wf selfeq m → gomap_wf selfeq (gomap.update selfeq f k m).
Proof.
  intros [Hf Hl]. unfold gomap.update. destruct (selfeq k) eqn:Hk; split; simpl; try done.
  intros j [x Hj]. apply Hf. destruct (decide (j = k)) as [->|Hne].
  - rewrite lookup_alter_eq in Hj. destruct (gomap.found m !! k); [eauto|done].
  - rewrite lookup_alter_ne in Hj by done. eauto.
Qed.

(** An assignment to a key equal to itself replaces its entry; an assignment
    to another key adds an entry. *)
Lemma gomap_len_store m k (x : V) :
  gomap.len (gomap.store selfeq k x m) =
    if selfeq k
    then match gomap.found m !! k with
         | Some _ => gomap.len m
         | None => S (gomap.len m)
         end
    else S (gomap.len m).
Proof.
  unfold gomap.store, gomap.len. destruct (selfeq k); simpl.
  - destruct (gomap.found m !! k) eqn:E.
    + rewrite map_size_insert_Some by eauto. done.
    + rewrite map_size_insert_None by done. done.
  - rewrite length_app. simpl. lia.
Qed.

(** A loop over the map that deletes the entries it finds to be [P].  On the
    entries a lookup finds: of those it visits it deletes the ones that are
    [P], when their key is equal to itself. *)
Lemma gomap_fold_delete (f : Key → V → gomap.t Key V → gomap.t Key V)
    (P : V → Prop) `{∀ e, Decision (P e)} (acc : gomap.t Key V) (fm : gmap Key V) :
  (∀ k e a, f k e a = if decide (P e) then gomap.delete selfeq k a else a) →
  gomap.lost (map_fold f acc fm) = gomap.lost acc
  ∧ ∀ k, gomap.found (map_fold f acc fm) !! k =
      match fm !! k with
      | Some e =>
          if decide (P e) then if selfeq k then None else gomap.found acc !! k
          else gomap.found acc !! k
      | None => gomap.found acc !! k
      end.
Proof.
  intros Hf.
  apply (map_fold_weak_ind (λ r fm,
    gomap.lost r = gomap.lost acc
    ∧ ∀ k, gomap.found r !! k =
        match fm !! k with
        | Some e =>
            if decide (P e) then if selfeq k then None else gomap.found acc !! k
            else gomap.found acc !! k
        | None => gomap.found acc !! k
        end)).
  - split; [done|]. intros k. by rewrite lookup_empty.
  - intros i x fm' r Hi [IHl IHf]. rewrite Hf. unfold gomap.delete. split.
    + case_decide; [|done]. by destruct (selfeq i).
    + intros k. destruct (decide (k = i)) as [->|Hne].
      * rewrite lookup_insert_eq. case_decide; [|by rewrite IHf, Hi].
        destruct (selfeq i); simpl; [by rewrite lookup_delete_eq|by rewrite IHf, Hi].
      * rewrite lookup_insert_ne by done. case_decide; [|by rewrite IHf].
        destruct (selfeq i); simpl; [by rewrite lookup_delete_ne, IHf|by rewrite IHf].
Qed.

(** On the other entries: their delete removes nothing. *)
Lemma gomap_foldl_delete (f : Key → V → gomap.t Key V → gomap.t Key V)
    (P : V → Prop) `{∀ e, Decision (P e)} (acc : gomap.t Key V) (l : list (Key * V)) :
  (∀ k e a, f k e a = if decide (P e) then gomap.delete selfeq k a else a) →
  Forall (λ kv, selfeq kv.1 = false) l →
  foldl (λ a kv, f kv.1 kv.2 a) acc l = acc.
Proof.
  intros Hf Hl. revert acc. induction Hl as [|[k e] l Hk _ IH]; intros acc; simpl; [done|].
  simpl in Hk. rewrite Hf. unfold gomap.delete. rewrite Hk.
  case_decide; apply IH.
Qed.

(** The map after the loop. *)
Lemma gomap_range_delete (f : Key → V → gomap.t Key V → gomap.t Key V)
    (P : V → Prop) `{∀ e, Decision (P e)} m :
  (∀ k e a, f k e a = if decide (P e) then gomap.delete selfeq k a else a) →
  gomap_wf selfeq m →
  gomap.lost (gomap.range f m m) = gomap.lost m
  ∧ ∀ k, gomap.found (gomap.range f m m) !! k =
      match gomap.found m !! k with
      | Some e => if decide (P e) then None else Some e
      | None => None
      end.
Proof.
  intros Hf [Hfd Hl]. unfold gomap.range. rewrite (gomap_foldl_delete f P) by done.
  destruct (gomap_fold_delete f P m (gomap.found m) Hf) as [Hlost Hfound].
  split; [done|]. intros k. rewrite Hfound.
  destruct (gomap.found m !! k) as [e|] eqn:E; [|done].
  rewrite (Hfd k) by eauto. by case_decide.
Qed.

End gomap_facts.

Section ttl_any_calls.
Context {Key : Type} `{Countable Key} (selfeq : Key → bool) {Val : Type} (zero : Val).
Implicit Types (c : TTL_any.TTLCache Key Val) (k : Key) (v : Val) (now : time.Time).
Implicit Types (m acc : gomap.t Key (TTL.cacheEntry Val)).

Lemma TTL_any_Put_ok c now k v :
  TTL_any.mu c = sync.RWMutex_zero →
  TTL_any.Put selfeq now k v c =
    Ok tt (TTL_any.set_storege
             (gomap.store selfeq k {| TTL.val := v; TTL.lastVisited := now |}) c).
Proof.
  destruct c as [[fnd lst] ttl ror m cr cm]; simpl; intros ->.
  unfold TTL_any.Put, defer, mbind, M_bind, bind, gomap.lookup, gomap.store, gomap.update;
    simpl.
  destruct (selfeq k) eqn:Hk; simpl; rewrite ?Hk; [|done].
  destruct (fnd !! k) as [e|] eqn:E; simpl; rewrite ?Hk; [|done].
  unfold ret, TTL_any.set_mu, TTL_any.set_storege, sync.RWMutex_zero; simpl.
  rewrite ?Hk. simpl.
  apply (f_equal (Ok tt)).
  apply (f_equal (λ f, {| TTL_any.storege := {| gomap.found := f; gomap.lost := lst |};
                          TTL_any.timeToLive := ttl; TTL_any.resetOnRead := ror;
                          TTL_any.mu := {| sync.readers := 0%nat; sync.writer := false |};
                          TTL_any.cleanupRunning := cr; TTL_any.cleanupMu := cm |})).
  apply map_eq. intros j. destruct (decide (j = k)) as [->|Hne].
  - by rewrite lookup_insert_eq, !lookup_alter_eq, E.
  - by rewrite lookup_insert_ne, !lookup_alter_ne.
Qed.

(** Get stops in the same fatal error on every key. *)
Lemma TTL_any_Get_fatal c now k :
  TTL_any.mu c = sync.RWMutex_zero →
  ∃ s, TTL_any.Get selfeq zero now k c
       = Fatal "fatal error: sync: RUnlock of unlocked RWMutex" s.
Proof.
  destruct c as [st ttl ror m cr cm]; simpl; intros ->.
  unfold TTL_any.Get, TTL_any.Get_body, defer, mbind, M_bind, bind; simpl.
  destruct (gomap.lookup selfeq k st) as [e|]; simpl; [|by eexists].
  destruct (decide _); simpl; [by eexists|].
  destruct ror; by eexists.
Qed.

Lemma TTL_any_Size_ok c :
  TTL_any.mu c = sync.RWMutex_zero →
  TTL_any.Size c = Ok (Z.of_nat (gomap.len (TTL_any.storege c))) c.
Proof. destruct c as [st ttl ror m cr cm]; simpl; intros ->. done. Qed.

Lemma TTL_any_Cleanup_ok c now :
  TTL_any.mu c = sync.RWMutex_zero →
  TTL_any.Cleanup selfeq now c =
    Ok tt (TTL_any.set_storege
             (λ m, gomap.range (TTL_any.sweep selfeq now (TTL_any.timeToLive c)) m m) c).
Proof. destruct c as [st ttl ror m cr cm]; simpl; intros ->. done. Qed.

(** The store after Cleanup. *)
Lemma sweep_any_range now (ttl : time.Duration) m :
  gomap_wf selfeq m →
  gomap.lost (gomap.range (TTL_any.sweep selfeq now ttl) m m) = gomap.lost m
  ∧ ∀ k, gomap.found (gomap.range (TTL_any.sweep selfeq now ttl) m m) !! k =
      match gomap.found m !! k with
      | Some e => if decide (time.Since now (TTL.lastVisited e) >= ttl) then None else Some e
      | None => None
      end.
Proof.
  apply (gomap_range_delete selfeq (TTL_any.sweep selfeq now ttl)
           (λ e, time.Since now (TTL.lastVisited e) >= ttl)).
  done.
Qed.

Lemma NewTTL_any_ok (ttl : time.Duration) (ror : bool) c :
  TTL_any.NewTTL ttl ror = (Some c, None) →
  0 < ttl
  ∧ c = {| TTL_any.storege := gomap.make; TTL_any.timeToLive := ttl;
           TTL_any.resetOnRead := ror; TTL_any.mu := sync.RWMutex_zero;
           TTL_any.cleanupRunning := false; TTL_any.cleanupMu := false |}.
Proof.
  unfold TTL_any.NewTTL. destruct (decide (ttl <= 0)); intros [= <-]; split; [lia|done].
Qed.

Lemma NewTTL_any_inv (ttl : time.Duration) (ror : bool) c :
  ttl <= time.maxDuration → TTL_any.NewTTL ttl ror = (Some c, None) →
  ttl_any_inv selfeq c.
Proof. intros Hmax [Hpos ->]%NewTTL_any_ok. split; try done. apply gomap_wf_make. Qed.

Lemma ttl_any_inv_Put c now k v :
  ttl_any_inv selfeq c →
  ttl_any_inv selfeq
    (TTL_any.set_storege (gomap.store selfeq k {| TTL.val := v; TTL.lastVisited := now |}) c).
Proof. intros [? ? ? ? ?]. split; try done. simpl. by apply gomap_wf_store. Qed.

End ttl_any_calls.

Section ttl_any_claims.
Context {Key : Type} `{Countable Key} (selfeq : Key → bool) {Val : Type} (zero : Val).
Implicit Types (c : TTL_any.TTLCache Key Val) (k : Key) (v : Val) (now : time.Time).


End ttl_any_claims.



(** ** Further properties of the LRU cache on every comparable key type *)

Section lru_any_more.
Context {Key : Type} `{Countable Key} (selfeq : Key → bool) {Val : Type} (zero : Val).
Implicit Types (g : LRU_any.lruCache Key Val) (c : LRU.lruCache Key Val).
Implicit Types (k : Key) (v : Val) (ops : list (op Key Val)).







End lru_any_more.





(** ** The slice-based LRU cache on every comparable key type *)

Section lru_slice_any_more.
Context {Key : Type} `{Countable Key} (selfeq : Key → bool) {Val : Type} (zero : Val).
Implicit Types (s : LRU_slice_any.lruCache Key Val) (c : LRU_slice.lruCache Key Val).
Implicit Types (k : Key) (v : Val) (ops : list (op Key Val)) (o : op Key Val).





End lru_slice_any_more.

Section lru_slice_any_claims.
Context {Key : Type} `{Countable Key} (selfeq : Key → bool) {Val : Type} (zero : Val).
Implicit Types (s : LRU_slice_any.lruCache Key Val).
Implicit Types (k : Key) (v : Val) (ops : list (op Key Val)).


End lru_slice_any_claims.


(** ** Further properties of the TTL caches on every comparable key type *)

Section ttl_any_more.
Context {Key : Type} `{Countable Key} (selfeq : Key → bool) {Val : Type} (zero : Val).
Implicit Types (c : TTL_any.TTLCache Key Val) (k : Key) (v : Val) (now : time.Time).
Implicit Types (p : process (TTL_any.TTLCache Key Val)).

(** X13.  An entry put at [now] under a key equal to itself is kept by a
    Cleanup at [now'] when less than the time to live has passed, and removed
    otherwise; an entry put under a key that is not equal to itself is kept
    by Cleanup, whatever time has passed. *)
Theorem ttl_any_put_then_cleanup c now now' k v :
  ttl_any_inv selfeq c →
  ∃ c1 c2, TTL_any.Put selfeq now k v c = Ok tt c1
    ∧ TTL_any.Cleanup selfeq now' c1 = Ok tt c2
    ∧ (selfeq k = true → now' - now < TTL_any.timeToLive c →
         gomap.lookup selfeq k (TTL_any.storege c2)
         = Some {| TTL.val := v; TTL.lastVisited := now |})
    ∧ (selfeq k = true → now' - now >= TTL_any.timeToLive c →
         gomap.found (TTL_any.storege c2) !! k = None)
    ∧ (selfeq k = false →
         gomap.lost (TTL_any.storege c2)
         = gomap.lost (TTL_any.storege c) ++ [(k, {| TTL.val := v; TTL.lastVisited := now |})]).
Proof.
  intros Hinv. pose proof Hinv as [Hmu _ Hpos Hmax _].
  pose proof (ttl_any_inv_Put selfeq c now k v Hinv) as Hinv1.
  eexists _, _. split; [by apply TTL_any_Put_ok|].
  split; [apply TTL_any_Cleanup_ok, Hinv1|]. simpl.
  destruct (sweep_any_range selfeq now' (TTL_any.timeToLive c) _ (ttl_any_store _ _ Hinv1))
    as [Hlost Hfound].
  simpl in Hlost, Hfound. split_and!.
  - intros Hk Hlt. unfold gomap.lookup. rewrite Hk, Hfound.
    unfold gomap.store. rewrite Hk. simpl. rewrite lookup_insert_eq. simpl.
    rewrite decide_False; [done|]. rewrite Since_ge by done. lia.
  - intros Hk Hge. rewrite Hfound. unfold gomap.store. rewrite Hk. simpl.
    rewrite lookup_insert_eq. simpl. rewrite decide_True; [done|]. by apply Since_ge.
  - intros Hk. rewrite Hlost. unfold gomap.store. by rewrite Hk.
Qed.

(** X23.  The last Put wins, in the TTL cache of package ttl, for a key
    equal to itself: Put(k, v1) at [t1] followed by Put(k, v2) at [t2] leaves
    the cache that Put(k, v2) at [t2] alone leaves.  For a key that is not
    equal to itself each Put adds an entry. *)
Theorem ttl_any_put_twice c (t1 t2 : time.Time) k v1 v2 :
  TTL_any.mu c = sync.RWMutex_zero →
  ∃ c1 c2, TTL_any.Put selfeq t1 k v1 c = Ok tt c1
    ∧ TTL_any.Put selfeq t2 k v2 c1 = Ok tt c2
    ∧ (selfeq k = true → TTL_any.Put selfeq t2 k v2 c = Ok tt c2)
    ∧ (selfeq k = false →
         gomap.len (TTL_any.storege c2) = S (S (gomap.len (TTL_any.storege c)))
         ∧ gomap.lost (TTL_any.storege c2)
           = gomap.lost (TTL_any.storege c)
             ++ [(k, {| TTL.val := v1; TTL.lastVisited := t1 |});
                 (k, {| TTL.val := v2; TTL.lastVisited := t2 |})]).
Proof.
  intros Hmu. eexists _, _.
  split; [by apply TTL_any_Put_ok|].
  split; [by apply TTL_any_Put_ok|].
  destruct c as [[fnd lst] ttl ror m cr cm]; simpl in *. subst m. split.
  - intros Hk. rewrite TTL_any_Put_ok by done.
    unfold TTL_any.set_storege, gomap.store; simpl. rewrite !Hk. simpl.
    by rewrite insert_insert_eq.
  - intros Hk. unfold gomap.store, gomap.len. rewrite !Hk. simpl.
    rewrite <-(assoc_L (++)). simpl. split; [|done].
    rewrite !length_app. simpl. lia.
Qed.

(** X17.  A scheduled sweep: after ScheduleCleanup with a positive interval
    on a process with no cleanup scheduled, the goroutine creates its ticker,
    and when it then receives a tick at [now] the store loses exactly the
    entries stored under keys equal to themselves whose age is at least the
    time to live; the goroutine stays, in its loop. *)
Theorem ttl_any_scheduled_tick_sweeps p cx (e : time.Duration) now0 sel now :
  ttl_any_inv selfeq (cache p) →
  routines p = [] →
  TTL_any.cleanupRunning (cache p) = false →
  0 < e →
  ∃ p1 p2 p3,
    TTL_any.ScheduleCleanup cx e p = Ok tt p1
    ∧ TTL_any.routine_step selfeq now0 sel 0 p1 = Ok tt p2
    ∧ TTL_any.routine_step selfeq now TTL.TickerC 0 p2 = Ok tt p3
    ∧ routines p3 = [{| ctx := cx; every := e; at_phase := Ticking |}]
    ∧ TTL_any.cleanupRunning (cache p3) = true
    ∧ gomap.lost (TTL_any.storege (cache p3)) = gomap.lost (TTL_any.storege (cache p))
    ∧ ∀ k, gomap.found (TTL_any.storege (cache p3)) !! k =
        match gomap.found (TTL_any.storege (cache p)) !! k with
        | Some en =>
            if decide (now - TTL.lastVisited en >= TTL_any.timeToLive (cache p))
            then None else Some en
        | None => None
        end.
Proof.
  intros Hinv Hrs Hr He. pose proof Hinv as [Hmu Hcm Hpos Hmax Hwf].
  destruct p as [[st ttl ror m cr cm] rs cs]; simpl in *. subst m cm cr rs.
  eexists _, _, _. split; [reflexivity|].
  split.
  { unfold TTL_any.routine_step, mbind, M_bind, bind; simpl.
    rewrite decide_False by lia. reflexivity. }
  split; [reflexivity|]. simpl.
  destruct (sweep_any_range selfeq now ttl st Hwf) as [Hlost Hfound].
  split_and!; [done|done|done|].
  intros k. rewrite Hfound.
  destruct (gomap.found st !! k) as [en|]; [|done].
  pose proof (Since_ge now (TTL.lastVisited en) _ Hpos Hmax).
  repeat case_decide; tauto.
Qed.

End ttl_any_more.

Lemma ttl_any_put_then_cleanup_witness :
  ∃ c1 c2,
    TTL_any.Put f64_selfeq 0 NaN 1 (scenario_f64.ttl (scenario.ms 100) false [] []) = Ok tt c1
    ∧ TTL_any.Cleanup f64_selfeq (scenario.ms 5000) c1 = Ok tt c2
    ∧ gomap.lost (TTL_any.storege c2) = [(NaN, scenario.entry 1 0)].
Proof.
  assert (ttl_any_inv f64_selfeq (scenario_f64.ttl (scenario.ms 100) false [] [])) as Hinv.
  { split; [reflexivity|reflexivity|reflexivity|discriminate|]. apply gomap_wf_make. }
  destruct (ttl_any_put_then_cleanup f64_selfeq _ 0 (scenario.ms 5000) NaN 1 Hinv)
    as (c1 & c2 & HP & HC & _ & _ & Hnan).
  exists c1, c2. split_and!; [exact HP|exact HC|]. apply Hnan. reflexivity.
Defined.

Lemma ttl_any_put_twice_witness :
  ∃ c1 c2,
    TTL_any.Put f64_selfeq 0 (Num 1) 1 (scenario_f64.ttl (scenario.ms 100) false [] [])
    = Ok tt c1
    ∧ TTL_any.Put f64_selfeq (scenario.ms 10) (Num 1) 2 c1 = Ok tt c2
    ∧ TTL_any.Put f64_selfeq (scenario.ms 10) (Num 1) 2
        (scenario_f64.ttl (scenario.ms 100) false [] []) = Ok tt c2.
Proof.
  destruct (ttl_any_put_twice f64_selfeq (scenario_f64.ttl (scenario.ms 100) false [] [])
              0 (scenario.ms 10) (Num 1) 1 2 eq_refl)
    as (c1 & c2 & H1 & H2 & H3 & _).
  exists c1, c2. split_and!; [exact H1|exact H2|]. apply H3. reflexivity.
Defined.

Lemma ttl_any_scheduled_tick_sweeps_witness :
  ∃ p1 p2 p3,
    TTL_any.ScheduleCleanup 1 (scenario.ms 10)
      {| cache := scenario_f64.ttl time.Second false [(Num 1, scenario.entry 1 0)]
                    [(NaN, scenario.entry 2 0)];
         routines := []; cancelled := ∅ |} = Ok tt p1
    ∧ TTL_any.routine_step f64_selfeq 0 TTL.TickerC 0 p1 = Ok tt p2
    ∧ TTL_any.routine_step f64_selfeq (scenario.ms 2000) TTL.TickerC 0 p2 = Ok tt p3
    ∧ gomap.found (TTL_any.storege (cache p3)) !! Num 1 = None
    ∧ gomap.lost (TTL_any.storege (cache p3)) = [(NaN, scenario.entry 2 0)].
Proof.
  assert (ttl_any_inv f64_selfeq
            (scenario_f64.ttl time.Second false [(Num 1, scenario.entry 1 0)]
               [(NaN, scenario.entry 2 0)])) as Hinv.
  { split; [reflexivity|reflexivity|reflexivity|discriminate|]. split; simpl.
    - intros [z|]; [done|]. intros [e He]. by vm_compute in He.
    - by repeat constructor. }
  destruct (ttl_any_scheduled_tick_sweeps f64_selfeq
              {| cache := scenario_f64.ttl time.Second false [(Num 1, scenario.entry 1 0)]
                            [(NaN, scenario.entry 2 0)];
                 routines := []; cancelled := ∅ |}
              1 (scenario.ms 10) 0 TTL.TickerC (scenario.ms 2000)
              Hinv eq_refl eq_refl eq_refl)
    as (p1 & p2 & p3 & H1 & H2 & H3 & _ & _ & Hlost & Hfound).
  exists p1, p2, p3. split_and!; [exact H1|exact H2|exact H3| |exact Hlost].
  rewrite Hfound. vm_compute. reflexivity.
Defined.

Section ttl1_any_more.
Context {Key : Type} `{Countable Key} (selfeq : Key → bool) {Val : Type} (zero : Val).
Implicit Types (c : TTL_cache_any.TTLCache Key Val) (k : Key) (v : Val) (now : time.Time).

(** Put stores an entry with the value and the time of the call: in place
    of the entry of the key, or as one more entry when the key is not equal
    to itself. *)
Lemma ttl1_any_Put_ok c now k v :
  TTL_cache_any.mu c = false →
  ∃ c1 en, TTL_cache_any.Put selfeq now k v c = Ok tt c1
    ∧ TTL_cache_any.store c1 = gomap.store selfeq k en (TTL_cache_any.store c)
    ∧ TTL_cache.val en = v ∧ TTL_cache.lastVisited en = now
    ∧ TTL_cache_any.mu c1 = false
    ∧ TTL_cache_any.timeToLive c1 = TTL_cache_any.timeToLive c
    ∧ TTL_cache_any.resetOnAccess c1 = TTL_cache_any.resetOnAccess c.
Proof.
  destruct c as [[fnd lst] ttl roa m]; simpl. intros ->.
  unfold TTL_cache_any.Put, defer, mbind, M_bind, bind, gomap.lookup, gomap.store,
    gomap.update; simpl.
  destruct (selfeq k) eqn:Hk; simpl; rewrite ?Hk.
  - destruct (fnd !! k) as [e0|] eqn:E; simpl; rewrite ?Hk.
    + eexists _, {| TTL_cache.key := TTL_cache.key e0; TTL_cache.val := v;
                    TTL_cache.lastVisited := now |}.
      split; [reflexivity|]. simpl. rewrite ?Hk. simpl. split_and!; try done.
      f_equal. apply map_eq. intros j. destruct (decide (j = k)) as [->|Hne].
      * by rewrite lookup_insert_eq, !lookup_alter_eq, E.
      * by rewrite lookup_insert_ne, !lookup_alter_ne.
    + eexists _, _. split; [reflexivity|]. by simpl.
  - eexists _, _. split; [reflexivity|]. by simpl.
Qed.

Lemma ttl1_any_Get_miss c now k :
  TTL_cache_any.mu c = false →
  gomap.lookup selfeq k (TTL_cache_any.store c) = None →
  TTL_cache_any.Get selfeq zero now k c = Ok (zero, false) c.
Proof.
  destruct c as [st ttl roa m]; simpl. intros -> E.
  unfold TTL_cache_any.Get, defer, mbind, M_bind, bind; simpl. by rewrite E.
Qed.

Lemma ttl1_any_Get_hit c now k e :
  TTL_cache_any.mu c = false →
  gomap.lookup selfeq k (TTL_cache_any.store c) = Some e →
  TTL_cache_any.Get selfeq zero now k c =
    Ok (TTL_cache.val e, true)
       (if TTL_cache_any.resetOnAccess c
        then TTL_cache_any.set_store (gomap.update selfeq (TTL_cache.touch now) k) c
        else c).
Proof.
  destruct c as [st ttl roa m]; simpl. intros -> E.
  unfold TTL_cache_any.Get, defer, mbind, M_bind, bind; simpl. rewrite E.
  by destruct roa.
Qed.

Lemma ttl1_any_Cleanup_ok c now :
  TTL_cache_any.mu c = false →
  TTL_cache_any.Cleanup selfeq now c =
    Ok tt (TTL_cache_any.set_store
             (λ m, gomap.range (TTL_cache_any.sweep selfeq now (TTL_cache_any.timeToLive c))
                     m m) c).
Proof. destruct c as [st ttl roa m]; simpl; intros ->. done. Qed.

(** The Cleanup of package cache does what the Cleanup of package ttl does:
    of the entries stored under keys equal to themselves it removes those
    whose age is at least the time to live and keeps the younger ones; it
    keeps the entries stored under the other keys. *)
Lemma ttl1_any_cleanup_removes_expired c now :
  ttl1_any_inv selfeq c →
  ∃ c', TTL_cache_any.Cleanup selfeq now c = Ok tt c'
    ∧ (∀ k e, gomap.lookup selfeq k (TTL_cache_any.store c) = Some e →
         now - TTL_cache.lastVisited e >= TTL_cache_any.timeToLive c →
         gomap.found (TTL_cache_any.store c') !! k = None)
    ∧ (∀ k e, gomap.lookup selfeq k (TTL_cache_any.store c) = Some e →
         now - TTL_cache.lastVisited e < TTL_cache_any.timeToLive c →
         gomap.lookup selfeq k (TTL_cache_any.store c') = Some e)
    ∧ (∀ k, gomap.found (TTL_cache_any.store c) !! k = None →
         gomap.found (TTL_cache_any.store c') !! k = None)
    ∧ gomap.lost (TTL_cache_any.store c') = gomap.lost (TTL_cache_any.store c).
Proof.
  intros [Hmu Hpos Hmax Hwf].
  eexists. split; [by apply ttl1_any_Cleanup_ok|]. simpl.
  destruct (gomap_range_delete selfeq
              (TTL_cache_any.sweep selfeq now (TTL_cache_any.timeToLive c))
              (λ e, time.Since now (TTL_cache.lastVisited e) >= TTL_cache_any.timeToLive c)
              (TTL_cache_any.store c)) as [Hlost Hfound]; [done|done|].
  split_and!; [| | |done].
  - intros k e [Hk E]%gomap_lookup_Some Hold. rewrite Hfound, E.
    rewrite decide_True; [done|]. by apply Since_ge.
  - intros k e [Hk E]%gomap_lookup_Some Hyoung. unfold gomap.lookup.
    rewrite Hk, Hfound, E.
    rewrite decide_False; [done|]. rewrite Since_ge by done. lia.
  - intros k E. by rewrite Hfound, E.
Qed.

(** X18.  In the first TTL cache a Get never misses an entry stored under a
    key equal to itself: after Put(k, v) at [now], Get(k) at any time [now'],
    however late, returns (v, true).  Under a key that is not equal to itself
    the Get returns the zero value and false. *)
Theorem ttl1_any_put_then_get_at_any_time c now now' k v :
  TTL_cache_any.mu c = false →
  ∃ c1 c2, TTL_cache_any.Put selfeq now k v c = Ok tt c1
    ∧ TTL_cache_any.Get selfeq zero now' k c1
      = Ok (if selfeq k then (v, true) else (zero, false)) c2.
Proof.
  intros Hmu.
  destruct (ttl1_any_Put_ok c now k v Hmu) as (c1 & en & HPut & Hst & Hv & _ & Hmu1 & _).
  exists c1. destruct (selfeq k) eqn:Hk.
  - assert (gomap.lookup selfeq k (TTL_cache_any.store c1) = Some en) as Hl.
    { rewrite Hst. unfold gomap.lookup, gomap.store. rewrite !Hk. simpl.
      by rewrite lookup_insert_eq. }
    eexists. split; [done|].
    rewrite (ttl1_any_Get_hit c1 now' k en Hmu1 Hl). by rewrite Hv.
  - exists c1. split; [done|]. apply ttl1_any_Get_miss; [done|].
    unfold gomap.lookup. by rewrite Hk.
Qed.

(** X19.  In the first TTL cache only Cleanup makes an entry go away: after
    Put(k, v) at [now] of a key equal to itself, a Cleanup at [now'] with
    [now' - now] at least the time to live removes the entry, and the Get
    that follows returns the zero value and false.  An entry put under a key
    that is not equal to itself stays in the store. *)
Theorem ttl1_any_cleanup_then_get c now now' now'' k v :
  ttl1_any_inv selfeq c →
  now' - now >= TTL_cache_any.timeToLive c →
  ∃ c1 c2 en, TTL_cache_any.Put selfeq now k v c = Ok tt c1
    ∧ TTL_cache.val en = v ∧ TTL_cache.lastVisited en = now
    ∧ TTL_cache_any.Cleanup selfeq now' c1 = Ok tt c2
    ∧ (selfeq k = true → gomap.found (TTL_cache_any.store c2) !! k = None)
    ∧ (selfeq k = false →
         gomap.lost (TTL_cache_any.store c2) = gomap.lost (TTL_cache_any.store c) ++ [(k, en)])
    ∧ TTL_cache_any.Get selfeq zero now'' k c2 = Ok (zero, false) c2.
Proof.
  intros [Hmu Hpos Hmax Hwf] Hold.
  destruct (ttl1_any_Put_ok c now k v Hmu)
    as (c1 & en & HPut & Hst & Hv & Hlv & Hmu1 & Httl1 & _).
  assert (gomap_wf selfeq (TTL_cache_any.store c1)) as Hwf1.
  { rewrite Hst. by apply gomap_wf_store. }
  destruct (gomap_range_delete selfeq
              (TTL_cache_any.sweep selfeq now' (TTL_cache_any.timeToLive c1))
              (λ e, time.Since now' (TTL_cache.lastVisited e) >= TTL_cache_any.timeToLive c1)
              (TTL_cache_any.store c1)) as [Hlost Hfound]; [done|done|].
  exists c1. eexists. exists en.
  split; [done|]. split; [done|]. split; [done|].
  split; [by apply ttl1_any_Cleanup_ok|]. simpl.
  assert (selfeq k = true →
          gomap.found
            (gomap.range (TTL_cache_any.sweep selfeq now' (TTL_cache_any.timeToLive c1))
               (TTL_cache_any.store c1) (TTL_cache_any.store c1)) !! k = None) as Hgone.
  { intros Hk. rewrite Hfound, Hst. unfold gomap.store. rewrite Hk. simpl.
    rewrite lookup_insert_eq. rewrite decide_True; [done|].
    rewrite Httl1, Hlv. by apply Since_ge. }
  split_and!; [done| |].
  - intros Hk. rewrite Hlost, Hst. unfold gomap.store. by rewrite Hk.
  - apply ttl1_any_Get_miss; [done|]. simpl. unfold gomap.lookup.
    destruct (selfeq k) eqn:Hk; [|done]. by apply Hgone.
Qed.

End ttl1_any_more.

(** The first TTL cache on float64 keys: two Puts under NaN, two entries. *)
Example ttl1_nan_put_twice :
  ∃ c0 c1 c2,
    TTL_cache_any.NewTTL (Key := f64) (Val := Z) (scenario.ms 100) false = (Some c0, None)
    ∧ TTL_cache_any.Put f64_selfeq 0 NaN 1 c0 = Ok tt c1
    ∧ TTL_cache_any.Put f64_selfeq 0 NaN 2 c1 = Ok tt c2
    ∧ TTL_cache_any.Size c2 = Ok 2 c2.
Proof.
  eexists _, _, _. split; [reflexivity|]. split; [vm_compute; reflexivity|].
  split; [vm_compute; reflexivity|]. reflexivity.
Qed.

Lemma ttl1_any_put_then_get_at_any_time_witness :
  ∃ c1 c2,
    TTL_cache_any.Put f64_selfeq 0 (Num 1) 1 (scenario_f64.ttl1 (scenario.ms 100) false [] [])
    = Ok tt c1
    ∧ TTL_cache_any.Get f64_selfeq 0 (scenario.ms 5000) (Num 1) c1 = Ok (1, true) c2.
Proof.
  exact (ttl1_any_put_then_get_at_any_time f64_selfeq 0
           (scenario_f64.ttl1 (scenario.ms 100) false [] [])
           0 (scenario.ms 5000) (Num 1) 1 eq_refl).
Defined.

Lemma ttl1_any_cleanup_then_get_witness :
  ∃ c1 c2,
    TTL_cache_any.Put f64_selfeq 0 NaN 1 (scenario_f64.ttl1 (scenario.ms 100) false [] [])
    = Ok tt c1
    ∧ TTL_cache_any.Cleanup f64_selfeq (scenario.ms 100) c1 = Ok tt c2
    ∧ length (gomap.lost (TTL_cache_any.store c2)) = 1%nat
    ∧ TTL_cache_any.Get f64_selfeq 0 (scenario.ms 100) NaN c2 = Ok (0, false) c2.
Proof.
  assert (ttl1_any_inv f64_selfeq (scenario_f64.ttl1 (scenario.ms 100) false [] [])) as Hinv.
  { split; [reflexivity|reflexivity|discriminate|]. apply gomap_wf_make. }
  destruct (ttl1_any_cleanup_then_get f64_selfeq 0
              (scenario_f64.ttl1 (scenario.ms 100) false [] [])
              0 (scenario.ms 100) (scenario.ms 100) NaN 1 Hinv ltac:(discriminate))
    as (c1 & c2 & en & HP & _ & _ & HC & _ & Hnan & HG).
  exists c1, c2. split_and!; [exact HP|exact HC| |exact HG].
  rewrite Hnan by reflexivity. reflexivity.
Defined.
